(** * A Bayesian ensemble (Models/BNN.py): propagation engine and variational objective

    Shallow embedding of the class [BNN] of [Models/BNN.py].  Python objects
    are records, methods are state transformers over a [Machine] (the model,
    the process-wide random generator and a ghost trace of the layer calls),
    exceptions are the [Raise] outcome, which keeps the state reached when it
    was thrown.

    Tensor entries are exact rationals ([Qc]); rounding of floating-point
    arithmetic is not modelled.  Tensors of rank 2 and 3, the two ranks
    documented for the inputs of the model, are nested lists; a nested list
    does not record the sizes behind an empty axis.

    Left out: [save] and [load], the [rng] argument of [forward] (the code
    never reads it), a target of [None], indices that are not natural
    numbers, and activations that are not element-wise. *)

From Stdlib Require Import QArith Qcanon.
From stdpp Require Import base list strings.

#[global] Instance Qc_eq_decision : EqDecision Qc := Qc_eq_dec.
#[global] Instance Qc_inhabited : Inhabited Qc := populate 0%Qc.

(** ** Python exceptions and outcomes *)

Inductive ConfigError : Type :=
  | BatchNotMultiple (batch_size model_len : nat)
  | MissingPropagationIndices
  | InvalidPropagationMethod (name : string).

Inductive PyError : Type :=
  | AssertionError
  | ValueError (why : ConfigError)
  | ZeroDivisionError
  | IndexError
  | RuntimeError.

Inductive Outcome (A : Type) : Type :=
  | Ok (a : A)
  | Raise (e : PyError).
Arguments Ok {A} a.
Arguments Raise {A} e.

#[global] Instance outcome_ret : MRet Outcome := @Ok.
#[global] Instance outcome_bind : MBind Outcome := fun A B f c =>
  match c with
  | Ok a => f a
  | Raise e => Raise e
  end.

Definition value_of {A} (d : A) (o : Outcome A) : A :=
  match o with Ok a => a | Raise _ => d end.

(** ** Tensors *)

Abbreviation Vec := (list Qc) (only parsing).
Abbreviation Matrix := (list (list Qc)) (only parsing).

Inductive Tensor : Type :=
  | T2 (m : Matrix)
  | T3 (t : list Matrix).

Definition ndim (x : Tensor) : nat :=
  match x with T2 _ => 2 | T3 _ => 3 end.

Definition qnat (n : nat) : Qc := Q2Qc (inject_Z (Z.of_nat n)).

Definition vsum (v : Vec) : Qc := foldr Qcplus 0%Qc v.

Definition entry (m : Matrix) (j d : nat) : Qc := (m !!! j) !!! d.

(** ** The tensor primitives of torch that the class uses *)

Module Torch.

(** [l[idx]] along one axis: every index must be in range. *)
Fixpoint gather {A} (idx : list nat) (l : list A) : Outcome (list A) :=
  match idx with
  | [] => Ok []
  | i :: rest =>
      match l !! i with
      | None => Raise IndexError
      | Some a => r ← gather rest l; Ok (a :: r)
      end
  end.

(** [x[:, idx, ...]] on a rank-3 tensor. *)
Fixpoint index_dim1 (t : list Matrix) (idx : list nat) : Outcome (list Matrix) :=
  match t with
  | [] => Ok []
  | m :: rest => m' ← gather idx m; r ← index_dim1 rest idx; Ok (m' :: r)
  end.

Definition flat3 (t : list Matrix) : list Qc := concat (concat t).

(** The block of [size] consecutive items starting at item [size * i]. *)
Definition block {A} (size : nat) (l : list A) (i : nat) : list A :=
  take size (drop (i * size) l).

Definition blocks {A} (count size : nat) (l : list A) : list (list A) :=
  map (block size l) (seq 0 count).

(** [t.view(a, b, -1)]: the last size is inferred from the number of
    elements, which is refused when [a * b] is zero or does not divide it. *)
Definition view3 (a b : nat) (t : list Matrix) : Outcome (list Matrix) :=
  let data := flat3 t in
  if a * b =? 0 then Raise RuntimeError
  else
    let c := length data / (a * b) in
    if a * b * c =? length data
    then Ok (blocks a b (blocks (a * b) c data))
    else Raise RuntimeError.

(** [t.view(a, -1)]. *)
Definition view2 (a : nat) (t : list Matrix) : Outcome Matrix :=
  let data := flat3 t in
  if a =? 0 then Raise RuntimeError
  else
    let c := length data / a in
    if a * c =? length data
    then Ok (blocks a c data)
    else Raise RuntimeError.

(** [dst[idx] = src]: row [i] of [src] is written at position [idx[i]],
    one write after the other; a single source row is broadcast. *)
Definition index_put (dst : Matrix) (idx : list nat) (src : Matrix) : Outcome Matrix :=
  if existsb (fun i => length dst <=? i) idx then Raise IndexError
  else
    match src with
    | [r] => Ok (foldl (fun acc i => <[i:=r]> acc) dst idx)
    | _ =>
        if length idx =? length src
        then Ok (foldl (fun acc ir => <[ir.1:=ir.2]> acc) dst (zip idx src))
        else Raise RuntimeError
    end.

(** Broadcasting of one axis: equal sizes are paired, a size of one is
    repeated, anything else is a shape error. *)
Fixpoint pairwise {A B C} (f : A -> B -> Outcome C) (a : list A) (b : list B)
  : Outcome (list C) :=
  match a, b with
  | [], [] => Ok []
  | x :: a', y :: b' => c ← f x y; r ← pairwise f a' b'; Ok (c :: r)
  | _, _ => Raise RuntimeError
  end.

Fixpoint each {A C} (f : A -> Outcome C) (a : list A) : Outcome (list C) :=
  match a with
  | [] => Ok []
  | x :: a' => c ← f x; r ← each f a'; Ok (c :: r)
  end.

Definition broadcast {A B C} (f : A -> B -> Outcome C) (a : list A) (b : list B)
  : Outcome (list C) :=
  match a, b with
  | [x], _ => each (f x) b
  | _, [y] => each (fun x => f x y) a
  | _, _ => pairwise f a b
  end.

Definition squared_error (p t : Qc) : Outcome Qc := Ok ((p - t) * (p - t))%Qc.

(** [t.sum((1, 2))] of a rank-3 tensor. *)
Definition sum_1_2 (t : list Matrix) : Vec := map (fun m => vsum (map vsum m)) t.

(** [t.mean(dim=0)] of a rank-3 tensor; an empty leading axis has no
    representable result here. *)
Definition mean_dim0 (t : list Matrix) : Outcome Matrix :=
  match t with
  | [] => Raise RuntimeError
  | m0 :: _ =>
      Ok (imap (fun j r0 =>
                  imap (fun d _ => (vsum (map (fun m => entry m j d) t) / qnat (length t))%Qc) r0)
               m0)
  end.

(** [t.mean()] over all the elements of a tensor given by its data. *)
Definition mean_all (data : list Qc) : Qc := (vsum data / qnat (length data))%Qc.

(** [target.repeat((n, 1, 1))] of a rank-2 tensor. *)
Definition repeat3 (n : nat) (m : Matrix) : list Matrix := replicate n m.

End Torch.

(** ** The ensemble linear layer

    [EnsembleLinearBayesian] comes from [Models/utils.py], and the weight
    sampler behind it from the blitz library. *)

Record Affine : Type := { weight : Matrix; bias : Vec }.

#[global] Instance Affine_inhabited : Inhabited Affine :=
  populate {| weight := []; bias := [] |}.

(** The learned posterior of one unit: location and scale parameters. *)
Record Posterior : Type := { post_mu : Affine; post_rho : Affine }.

#[global] Instance Posterior_inhabited : Inhabited Posterior :=
  populate {| post_mu := inhabitant; post_rho := inhabitant |}.

(** Modelled from the spec: the variational weight-sampling primitive, which
    is out of the scope of the spec but for its interface: a weight sample
    drawn from the posterior of a unit (here from the state [g] of the random
    generator, for member [i]), and the two log-densities whose difference is
    the KL term of the sample. *)
Class VariationalSampler : Type := {
  draw : nat -> nat -> Posterior -> Affine;
  log_posterior : list Posterior -> list Affine -> Qc;
  log_prior_of : list Affine -> Qc
}.

(** Modelled from the spec: the pseudo-random permutation generator
    [torch.randperm], a black box that returns a permutation of [0, n). *)
Class PermutationSource : Type := {
  randperm : nat -> nat -> list nat;
  randperm_perm : forall g n, randperm g n ≡ₚ seq 0 n
}.

(** Modelled from the spec: [EnsembleLinearBayesian] of [Models/utils.py], the
    layer that stacks the units of the E members, with its elite index list,
    its [use_only_elite] flag, its [freeze] flag and the log-densities of the
    weights it sampled last. *)
Record EnsembleLinearBayesian : Type := {
  in_features : nat;
  out_features : nat;
  units : list Posterior;
  layer_elite : option (list nat);
  use_only_elite : bool;
  layer_freeze : bool;
  log_variational_posterior : Qc;
  log_prior : Qc
}.

Module Layer.

Definition with_elite (e : option (list nat)) (l : EnsembleLinearBayesian) :=
  {| in_features := in_features l; out_features := out_features l;
     units := units l; layer_elite := e;
     use_only_elite := use_only_elite l; layer_freeze := layer_freeze l;
     log_variational_posterior := log_variational_posterior l;
     log_prior := log_prior l |}.

Definition with_use_only_elite (f : bool) (l : EnsembleLinearBayesian) :=
  {| in_features := in_features l; out_features := out_features l;
     units := units l; layer_elite := layer_elite l;
     use_only_elite := f; layer_freeze := layer_freeze l;
     log_variational_posterior := log_variational_posterior l;
     log_prior := log_prior l |}.

Definition with_freeze (f : bool) (l : EnsembleLinearBayesian) :=
  {| in_features := in_features l; out_features := out_features l;
     units := units l; layer_elite := layer_elite l;
     use_only_elite := use_only_elite l; layer_freeze := f;
     log_variational_posterior := log_variational_posterior l;
     log_prior := log_prior l |}.

Definition with_densities (lq lp : Qc) (l : EnsembleLinearBayesian) :=
  {| in_features := in_features l; out_features := out_features l;
     units := units l; layer_elite := layer_elite l;
     use_only_elite := use_only_elite l; layer_freeze := layer_freeze l;
     log_variational_posterior := lq;
     log_prior := lp |}.

(** The layer without the log-densities of its last sample. *)
Definition settings (l : EnsembleLinearBayesian) := with_densities 0%Qc 0%Qc l.

(** Modelled from the spec: [set_elite] records the active indices. *)
Definition set_elite (elite : list nat) (l : EnsembleLinearBayesian) :=
  with_elite (Some elite) l.

(** Modelled from the spec: [toggle_use_only_elite] flips the flag. *)
Definition toggle_use_only_elite (l : EnsembleLinearBayesian) :=
  with_use_only_elite (negb (use_only_elite l)) l.

Definition dot (x y : Vec) : Qc := vsum (zip_with Qcmult x y).

Definition column (j : nat) (w : Matrix) : Vec := map (fun r => r !!! j) w.

(** Modelled from the spec: one affine unit on one example, [x @ W + b] with
    [W] of shape in x out. *)
Definition affine_row (out : nat) (a : Affine) (x : Vec) : Vec :=
  map (fun j => (dot x (column j (weight a)) + bias a !!! j)%Qc) (seq 0 out).

Definition unit_apply (out : nat) (a : Affine) (m : Matrix) : Matrix :=
  map (affine_row out a) m.

Definition rows_ok (n : nat) (x : Tensor) : bool :=
  match x with
  | T2 m => forallb (fun r => length r =? n) m
  | T3 t => forallb (forallb (fun r => length r =? n)) t
  end.

Section Forward.
Context `{VariationalSampler}.

(** Modelled from the spec: the weights of one pass are the posterior means
    when the layer is frozen, one fresh sample per member otherwise; a
    sampling pass stores the log-densities of its sample and advances the
    random generator. *)
Definition pass_weights (l : EnsembleLinearBayesian) (g : nat) : list Affine :=
  if layer_freeze l then map post_mu (units l) else imap (draw g) (units l).

Definition after_pass (l : EnsembleLinearBayesian) (g : nat) : EnsembleLinearBayesian :=
  if layer_freeze l then l
  else with_densities (log_posterior (units l) (pass_weights l g))
                      (log_prior_of (pass_weights l g)) l.

Definition rng_after (l : EnsembleLinearBayesian) (g : nat) : nat :=
  if layer_freeze l then g else S g.

(** Modelled from the spec: the members that take part are all, or the elite
    ones.  [BNN] restricts a layer only after [set_elite]; a restriction
    without a list is refused here. *)
Definition select_members (l : EnsembleLinearBayesian) (ws : list Affine)
  : Outcome (list Affine) :=
  if use_only_elite l then
    match layer_elite l with
    | None => Raise RuntimeError
    | Some elite => Torch.gather elite ws
    end
  else Ok ws.

(** Modelled from the spec: the batched product.  A rank-3 batch pairs its
    leading axis with the members; as in a batched matrix product of torch, a
    leading axis of one and a rank-2 batch go whole to every member, which is
    what the expectation mode and the loss of [BNN] pass.  Rows that do not
    have [in_features] entries are a shape error. *)
Definition batched_affine (l : EnsembleLinearBayesian) (ws : list Affine) (x : Tensor)
  : Outcome (list Matrix) :=
  if negb (rows_ok (in_features l) x) then Raise RuntimeError
  else
    match x with
    | T2 m => Ok (map (fun a => unit_apply (out_features l) a m) ws)
    | T3 t => Torch.broadcast (fun a m => Ok (unit_apply (out_features l) a m)) ws t
    end.

(** Modelled from the spec: [forward] applies the model-th unit to the
    model-th slice.  The result comes with the layer after the call and
    the state of the random generator. *)
Definition forward (l : EnsembleLinearBayesian) (g : nat) (x : Tensor)
  : Outcome (list Matrix) * EnsembleLinearBayesian * nat :=
  (ws ← select_members l (pass_weights l g); batched_affine l ws x,
   after_pass l g, rng_after l g).

(** Modelled from the spec: the KL term of the layer for its last sample. *)
Definition kl_divergence (l : EnsembleLinearBayesian) : Qc :=
  (log_variational_posterior l - log_prior l)%Qc.

End Forward.

End Layer.


(** ** The ensemble [BNN] *)

Definition Activation := Qc -> Qc.

(** [nn.ReLU], the activation used when no configuration is given. *)
Definition relu : Activation := fun x =>
  match (x ?= 0)%Qc with Gt => x | _ => 0%Qc end.

(** The fields of [BNN] and of its base class [Ensemble] that the methods
    read.  A hidden block is the pair of a linear layer and its activation,
    an element-wise function. *)
Record BNN : Type := {
  num_members : nat;
  propagation_method : option string;
  in_size : nat;
  out_size : nat;
  hidden_layers : list (EnsembleLinearBayesian * Activation);
  output_layer : EnsembleLinearBayesian;
  freeze : bool;
  elite_models : option (list nat)
}.

Definition with_layers (hs : list (EnsembleLinearBayesian * Activation))
    (o : EnsembleLinearBayesian) (self : BNN) : BNN :=
  {| num_members := num_members self; propagation_method := propagation_method self;
     in_size := in_size self; out_size := out_size self;
     hidden_layers := hs; output_layer := o;
     freeze := freeze self; elite_models := elite_models self |}.

Definition with_freeze (f : bool) (self : BNN) : BNN :=
  {| num_members := num_members self; propagation_method := propagation_method self;
     in_size := in_size self; out_size := out_size self;
     hidden_layers := hidden_layers self; output_layer := output_layer self;
     freeze := f; elite_models := elite_models self |}.

Definition with_elite_models (e : option (list nat)) (self : BNN) : BNN :=
  {| num_members := num_members self; propagation_method := propagation_method self;
     in_size := in_size self; out_size := out_size self;
     hidden_layers := hidden_layers self; output_layer := output_layer self;
     freeze := freeze self; elite_models := e |}.

(** The linear layers of the network, hidden ones first. *)
Definition linear_layers (self : BNN) : list EnsembleLinearBayesian :=
  map fst (hidden_layers self) ++ [output_layer self].

(** The model without the log-densities that the layers keep of their last
    sample. *)
Definition net_settings (self : BNN) : BNN :=
  with_layers (map (fun layer => (Layer.settings layer.1, layer.2)) (hidden_layers self))
              (Layer.settings (output_layer self)) self.

(** The [use_only_elite] and [freeze] flags of the linear layers. *)
Definition elite_flags (self : BNN) : list bool :=
  map use_only_elite (linear_layers self).
Definition freeze_flags (self : BNN) : list bool :=
  map layer_freeze (linear_layers self).

(** What a run leaves behind besides the model: the calls of the linear
    layers (with sampled weights or not) and the permutations drawn. *)
Inductive Event : Type :=
  | LayerCall (sampled : bool)
  | PermDraw (n : nat).

Record Machine : Type := {
  net : BNN;
  rng : nat;
  trace : list Event
}.

Definition M (A : Type) : Type := Machine -> Outcome A * Machine.

#[global] Instance machine_ret : MRet M := fun A a s => (Ok a, s).
#[global] Instance machine_bind : MBind M := fun A B f c s =>
  match c s with
  | (Ok a, s') => f a s'
  | (Raise e, s') => (Raise e, s')
  end.

Definition raise {A} (e : PyError) : M A := fun s => (Raise e, s).
Definition lift {A} (o : Outcome A) : M A := fun s => (o, s).
Definition get_self : M BNN := fun s => (Ok (net s), s).
Definition update_self (f : BNN -> BNN) : M unit := fun s =>
  (Ok tt, {| net := f (net s); rng := rng s; trace := trace s |}).
Definition py_assert (c : bool) : M unit :=
  if c then mret tt else raise AssertionError.

Definition Meta := list (string * Qc).
Definition empty_meta : Meta := [].

(** [len(self)], from [Ensemble.__len__]. *)
Definition len (self : BNN) : nat := num_members self.

Definition model_len (self : BNN) : nat :=
  match elite_models self with
  | Some elite => length elite
  | None => len self
  end.

Definition layer_event (l : EnsembleLinearBayesian) : Event :=
  LayerCall (negb (layer_freeze l)).

Definition shape1 (t : list Matrix) : nat :=
  match t with m :: _ => length m | [] => 0 end.

(** [a // b] and [a % b] on Python integers. *)
Definition py_floordiv (a b : nat) : Outcome nat :=
  if b =? 0 then Raise ZeroDivisionError else Ok (a / b).
Definition py_mod (a b : nat) : Outcome nat :=
  if b =? 0 then Raise ZeroDivisionError else Ok (a mod b).

(** [t[0]] on a rank-3 tensor. *)
Definition index0 (t : list Matrix) : Outcome Tensor :=
  match t with m :: _ => Ok (T2 m) | [] => Raise IndexError end.

(** [F.mse_loss(input, target, reduction="none")] with broadcasting. *)
Definition mse_loss_none (input target : Tensor) : Outcome Tensor :=
  let b2 := Torch.broadcast (Torch.broadcast Torch.squared_error) in
  match input, target with
  | T2 p, T2 t => m ← b2 p t; Ok (T2 m)
  | T2 p, T3 t => r ← Torch.broadcast b2 [p] t; Ok (T3 r)
  | T3 p, T2 t => r ← Torch.broadcast b2 p [t]; Ok (T3 r)
  | T3 p, T3 t => r ← Torch.broadcast b2 p t; Ok (T3 r)
  end.

(** [t.sum((1, 2)).sum()]: axis 2 exists only at rank 3. *)
Definition sum_1_2_sum (t : Tensor) : Outcome Qc :=
  match t with
  | T2 _ => Raise IndexError
  | T3 r => Ok (vsum (Torch.sum_1_2 r))
  end.

(** [target.repeat((n, 1, 1))]. *)
Definition repeat_n_1_1 (n : nat) (target : Tensor) : Tensor :=
  match target with
  | T2 m => T3 (Torch.repeat3 n m)
  | T3 t => T3 (concat (replicate n t))
  end.

Section Methods.
Context `{VariationalSampler} `{PermutationSource}.

(** [set_elite] then [toggle_use_only_elite] on one linear layer. *)
Definition toggle_layer (elite : list nat) (l : EnsembleLinearBayesian) :=
  Layer.toggle_use_only_elite (Layer.set_elite elite l).

Definition _maybe_toggle_layers_use_only_elite (only_elite : bool) : M unit :=
  self ← get_self;
  match elite_models self with
  | None => mret tt
  | Some elite =>
      if (1 <? num_members self) && only_elite then
        update_self (with_layers
          (map (fun layer => (toggle_layer elite layer.1, layer.2)) (hidden_layers self))
          (toggle_layer elite (output_layer self)))
      else mret tt
  end.

(** [self.hidden_layers(x)]: every block is a linear layer followed by its
    activation.  An exception leaves the layers as they are at that point. *)
Fixpoint hidden_stack (ls : list (EnsembleLinearBayesian * Activation)) (g : nat) (x : Tensor)
  : Outcome Tensor * list (EnsembleLinearBayesian * Activation) * nat * list Event :=
  match ls with
  | [] => (Ok x, [], g, [])
  | (l, act) :: rest =>
      let '(r, l', g') := Layer.forward l g x in
      match r with
      | Raise e => (Raise e, (l', act) :: rest, g', [layer_event l])
      | Ok y =>
          let '(r', rest', g'', evs) :=
            hidden_stack rest g' (T3 (map (map (map act)) y)) in
          (r', (l', act) :: rest', g'', layer_event l :: evs)
      end
  end.

Definition call_hidden_layers (x : Tensor) : M Tensor := fun s =>
  let '(r, hs, g, evs) := hidden_stack (hidden_layers (net s)) (rng s) x in
  (r, {| net := with_layers hs (output_layer (net s)) (net s);
         rng := g; trace := trace s ++ evs |}).

Definition call_output_layer (x : Tensor) : M (list Matrix) := fun s =>
  let '(r, o, g) := Layer.forward (output_layer (net s)) (rng s) x in
  (r, {| net := with_layers (hidden_layers (net s)) o (net s);
         rng := g; trace := trace s ++ [layer_event (output_layer (net s))] |}).

Definition _default_forward (x : Tensor) (only_elite : bool) : M (list Matrix) :=
  _maybe_toggle_layers_use_only_elite only_elite;;
  x ← call_hidden_layers x;
  output ← call_output_layer x;
  _maybe_toggle_layers_use_only_elite only_elite;;
  mret output.

Definition _forward_from_indices (x : list Matrix) (model_shuffle_indices : list nat)
  : M Tensor :=
  self ← get_self;
  let batch_size := shape1 x in
  let num_models := model_len self in
  picked ← lift (Torch.index_dim1 x model_shuffle_indices);
  per_model ← lift (py_floordiv batch_size num_models);
  shuffled_x ← lift (Torch.view3 num_models per_model picked);
  pred ← _default_forward (T3 shuffled_x) true;
  pred ← lift (Torch.view2 batch_size pred);
  pred ← lift (Torch.index_put pred model_shuffle_indices pred);
  mret (T2 pred).

(** [torch.randperm(n)] on the process-wide generator. *)
Definition torch_randperm (n : nat) : M (list nat) := fun s =>
  (Ok (randperm (rng s) n),
   {| net := net s; rng := S (rng s); trace := trace s ++ [PermDraw n] |}).

Definition _forward_ensemble (x : Tensor) (propagation_indices : option (list nat))
  : M Tensor :=
  self ← get_self;
  match propagation_method self with
  | None =>
      mean ← _default_forward x false;
      if num_members self =? 1 then lift (index0 mean) else mret (T3 mean)
  | Some method =>
      match x with
      | T3 _ => raise AssertionError
      | T2 m =>
          let model_len := model_len self in
          remainder ← lift (py_mod (length m) model_len);
          if negb (remainder =? 0) then
            raise (ValueError (BatchNotMultiple (length m) model_len))
          else
            let x := [m] in
            if String.eqb method "random_model" then
              model_indices ← torch_randperm (shape1 x);
              _forward_from_indices x model_indices
            else if String.eqb method "fixed_model" then
              match propagation_indices with
              | None => raise (ValueError MissingPropagationIndices)
              | Some indices => _forward_from_indices x indices
              end
            else if String.eqb method "expectation" then
              pred ← _default_forward (T3 x) true;
              mean ← lift (Torch.mean_dim0 pred);
              mret (T2 mean)
            else raise (ValueError (InvalidPropagationMethod method))
      end
  end.

Definition forward (x : Tensor) (propagation_indices : option (list nat))
    (use_propagation : bool) : M Tensor :=
  if use_propagation then _forward_ensemble x propagation_indices
  else (output ← _default_forward x false; mret (T3 output)).

Definition _mse_loss (model_in target : Tensor) : M Qc :=
  py_assert (ndim model_in =? ndim target);;
  pred_mean ← forward model_in None false;
  errors ← lift (mse_loss_none pred_mean target);
  lift (sum_1_2_sum errors).

Definition freeze_layers (f : bool) (self : BNN) : BNN :=
  with_layers (map (fun layer => (Layer.with_freeze f layer.1, layer.2)) (hidden_layers self))
              (Layer.with_freeze f (output_layer self)) self.

Definition freeze_model : M unit :=
  update_self (fun self => freeze_layers true (with_freeze true self)).

Definition unfreeze_model : M unit :=
  update_self (fun self => freeze_layers false (with_freeze false self)).

(** [kl_divergence_from_nn(self)] of blitz: the sum, over the Bayesian
    modules of the network, of the KL term of each; a tensor of rank 0, given
    here by its one value. *)
Definition nn_kl_divergence : M Qc :=
  self ← get_self;
  mret (foldl (fun acc l => (acc + Layer.kl_divergence l)%Qc) 0%Qc (linear_layers self)).

(** The body of the loop of [sample_elbo]; [kl.mean()] is the mean over the
    elements of the rank-0 tensor [kl]. *)
Definition elbo_body (inputs labels : Tensor) (complexity_cost_weight : Qc) (loss : Qc)
  : M Qc :=
  mse ← _mse_loss inputs labels;
  let loss := (loss + mse)%Qc in
  kl ← nn_kl_divergence;
  let loss := (loss + Torch.mean_all [kl] * complexity_cost_weight)%Qc in
  mret loss.

Fixpoint elbo_loop (n : nat) (inputs labels : Tensor) (complexity_cost_weight : Qc)
    (loss : Qc) : M Qc :=
  match n with
  | 0 => mret loss
  | S k =>
      loss ← elbo_body inputs labels complexity_cost_weight loss;
      elbo_loop k inputs labels complexity_cost_weight loss
  end.

Definition sample_elbo (inputs labels : Tensor) (sample_nbr : nat)
    (complexity_cost_weight : Qc) : M Qc :=
  loss ← elbo_loop sample_nbr inputs labels complexity_cost_weight 0%Qc;
  if sample_nbr =? 0 then raise ZeroDivisionError
  else mret (loss / qnat sample_nbr)%Qc.

Definition loss (model_in target : Tensor) : M (Qc * Meta) :=
  self ← get_self;
  if freeze self then
    freeze_model;;
    value ← _mse_loss model_in target;
    mret (value, empty_meta)
  else
    value ← sample_elbo model_in target 100 1%Qc;
    mret (value, empty_meta).

Definition eval_score (model_in target : Tensor) : M (Tensor * Meta) :=
  py_assert ((ndim model_in =? 2) && (ndim target =? 2));;
  pred ← forward model_in None false;
  self ← get_self;
  let target := repeat_n_1_1 (num_members self) target in
  errors ← lift (mse_loss_none pred target);
  mret (errors, empty_meta).

Definition sample_propagation_indices (batch_size : nat) : M (list nat) :=
  self ← get_self;
  let model_len := model_len self in
  remainder ← lift (py_mod batch_size model_len);
  if negb (remainder =? 0) then
    raise (ValueError (BatchNotMultiple batch_size model_len))
  else torch_randperm batch_size.

Definition set_elite (elite_indices : list nat) : M unit :=
  self ← get_self;
  if negb (length elite_indices =? num_members self) then
    update_self (with_elite_models (Some elite_indices))
  else mret tt.

End Methods.

(** A change of a layer that leaves its units, its sizes and its freeze flag
    alone, as the elite restriction does. *)
Definition keeps_weights (f : EnsembleLinearBayesian -> EnsembleLinearBayesian) : Prop :=
  forall l, units (f l) = units l /\ layer_freeze (f l) = layer_freeze l
            /\ in_features (f l) = in_features l /\ out_features (f l) = out_features l.

(** A change of a layer that leaves its units, its sizes and its elite flag
    alone, as freezing and sampling do. *)
Definition keeps_shape (f : EnsembleLinearBayesian -> EnsembleLinearBayesian) : Prop :=
  forall l, units (f l) = units l /\ use_only_elite (f l) = use_only_elite l
            /\ in_features (f l) = in_features l /\ out_features (f l) = out_features l.

Definition on_layer (f : EnsembleLinearBayesian -> EnsembleLinearBayesian)
    (layer : EnsembleLinearBayesian * Activation) : EnsembleLinearBayesian * Activation :=
  (f layer.1, layer.2).

(** ** The steps of the default forward pass *)

Section Steps.
Context `{VariationalSampler}.

(** The two linear-layer calls between the toggles. *)
Definition layer_stack (x : Tensor) : M (list Matrix) :=
  h ← call_hidden_layers x; call_output_layer h.

(** Whether a call of the toggle flips the flags, and the model with its
    flags flipped. *)
Definition toggles (only_elite : bool) (self : BNN) : bool :=
  match elite_models self with
  | Some _ => (1 <? num_members self) && only_elite
  | None => false
  end.

Definition toggled (self : BNN) : BNN :=
  match elite_models self with
  | Some elite =>
      with_layers
        (map (fun layer => (toggle_layer elite layer.1, layer.2)) (hidden_layers self))
        (toggle_layer elite (output_layer self)) self
  | None => self
  end.

(** The members [ms] take part in the calls of the layer. *)
Definition selects (ms : list nat) (l : EnsembleLinearBayesian) : Prop :=
  forall g, Layer.select_members l (Layer.pass_weights l g)
            = Ok (map (fun e => Layer.pass_weights l g !!! e) ms).

Definition rows_of (n : nat) (t : list Matrix) : Prop :=
  Forall (Forall (fun r : Vec => length r = n)) t.

End Steps.

(** ** Construction *)

(** [EnsembleLinearBayesian(ensemble_size, l_in, l_out)] with the initial
    posterior of each member. *)
Definition create_linear_layer (ensemble_size l_in l_out : nat)
    (init : nat -> nat -> nat -> Posterior) : EnsembleLinearBayesian :=
  {| in_features := l_in; out_features := l_out;
     units := map (init l_in l_out) (seq 0 ensemble_size);
     layer_elite := None; use_only_elite := false; layer_freeze := false;
     log_variational_posterior := 0%Qc; log_prior := 0%Qc |}.

(** [BNN.__init__]: one block from [in_size] to [hid_size], [num_layers - 1]
    blocks from [hid_size] to [hid_size], the output layer, the freeze flag
    pushed to the layers when set, and no elite models. *)
Definition BNN_init (in_size out_size num_layers ensemble_size hid_size : nat)
    (freeze : bool) (propagation_method : option string) (activation : Activation)
    (init : nat -> nat -> nat -> nat -> Posterior) : BNN :=
  let first := (create_linear_layer ensemble_size in_size hid_size (init 0), activation) in
  let others :=
    map (fun k => (create_linear_layer ensemble_size hid_size hid_size (init (S k)), activation))
        (seq 0 (num_layers - 1)) in
  let self :=
    {| num_members := ensemble_size; propagation_method := propagation_method;
       in_size := in_size; out_size := out_size;
       hidden_layers := first :: others;
       output_layer := create_linear_layer ensemble_size hid_size out_size (init num_layers);
       freeze := freeze; elite_models := None |} in
  (if freeze then freeze_layers true (with_freeze true self) else self).

(** ** Well-formed models and inputs *)

(** The sizes of consecutive layers agree, from [n] to [out]. *)
Fixpoint chained (n : nat) (ls : list EnsembleLinearBayesian) (out : nat) : bool :=
  match ls with
  | [] => n =? out
  | l :: rest => (in_features l =? n) && chained (out_features l) rest out
  end.

(** What the constructor establishes and every method keeps when it returns:
    at least one member, every layer with one unit per member and its elite
    restriction off, at least one hidden block, sizes that agree. *)
Definition well_formed (self : BNN) : bool :=
  (1 <=? num_members self)
  && forallb (fun l => (length (units l) =? num_members self) && negb (use_only_elite l))
             (linear_layers self)
  && negb (length (hidden_layers self) =? 0)
  && chained (in_size self) (linear_layers self) (out_size self).

(** An elite set as the data model has it: distinct member indices, at least
    one. *)
Definition valid_elite (self : BNN) : bool :=
  match elite_models self with
  | None => true
  | Some elite =>
      negb (length elite =? 0)
      && forallb (fun i => i <? num_members self) elite
      && bool_decide (NoDup elite)
  end.

(** The members that run in a call of the default forward pass. *)
Definition active_members (only_elite : bool) (self : BNN) : list nat :=
  match elite_models self with
  | Some elite =>
      if (1 <? num_members self) && only_elite then elite else seq 0 (num_members self)
  | None => seq 0 (num_members self)
  end.

(** The batch that each of [n] members receives: a rank-2 batch and a rank-3
    batch with a leading axis of one go to every member. *)
Definition per_member (n : nat) (x : Tensor) : list Matrix :=
  match x with
  | T2 m => replicate n m
  | T3 [m] => replicate n m
  | T3 t => t
  end.

Section Reference.
Context `{VariationalSampler}.

(** The prediction of member [e] for one example in a pass that starts with
    the random generator in state [g]: the network as a function on rows. *)
Fixpoint hidden_row (ls : list (EnsembleLinearBayesian * Activation)) (g e : nat) (x : Vec)
  : Vec :=
  match ls with
  | [] => x
  | (l, act) :: rest =>
      hidden_row rest (Layer.rng_after l g) e
        (map act (Layer.affine_row (out_features l) (Layer.pass_weights l g !!! e) x))
  end.

Fixpoint stack_rng (ls : list EnsembleLinearBayesian) (g : nat) : nat :=
  match ls with
  | [] => g
  | l :: rest => stack_rng rest (Layer.rng_after l g)
  end.

Definition member_row (self : BNN) (g e : nat) (x : Vec) : Vec :=
  let o := output_layer self in
  let g' := stack_rng (map fst (hidden_layers self)) g in
  Layer.affine_row (out_features o) (Layer.pass_weights o g' !!! e)
    (hidden_row (hidden_layers self) g e x).

(** The layers after a pass that started in state [g]. *)
Fixpoint hidden_after (ls : list (EnsembleLinearBayesian * Activation)) (g : nat)
  : list (EnsembleLinearBayesian * Activation) :=
  match ls with
  | [] => []
  | (l, act) :: rest => (Layer.after_pass l g, act) :: hidden_after rest (Layer.rng_after l g)
  end.

(** The elite list that a call with the restriction leaves in the layers. *)
Definition mark_elite (only_elite : bool) (self : BNN) : BNN :=
  match elite_models self with
  | Some elite =>
      if (1 <? num_members self) && only_elite then
        with_layers
          (map (fun layer => (Layer.set_elite elite layer.1, layer.2)) (hidden_layers self))
          (Layer.set_elite elite (output_layer self)) self
      else self
  | None => self
  end.

Definition after_default_forward (only_elite : bool) (s : Machine) : Machine :=
  let self := mark_elite only_elite (net s) in
  let g' := stack_rng (map fst (hidden_layers self)) (rng s) in
  {| net := with_layers (hidden_after (hidden_layers self) (rng s))
                        (Layer.after_pass (output_layer self) g') self;
     rng := stack_rng (linear_layers self) (rng s);
     trace := trace s ++ map layer_event (linear_layers self) |}.

(** The network with every weight at its posterior mean. *)
Definition mean_affine (l : EnsembleLinearBayesian) (e : nat) : Affine :=
  post_mu (units l !!! e).

Fixpoint frozen_hidden_row (ls : list (EnsembleLinearBayesian * Activation)) (e : nat) (x : Vec)
  : Vec :=
  match ls with
  | [] => x
  | (l, act) :: rest =>
      frozen_hidden_row rest e (map act (Layer.affine_row (out_features l) (mean_affine l e) x))
  end.

Definition frozen_row (self : BNN) (e : nat) (x : Vec) : Vec :=
  Layer.affine_row (out_features (output_layer self)) (mean_affine (output_layer self) e)
    (frozen_hidden_row (hidden_layers self) e x).

End Reference.

(** ** The objective in closed form *)

Definition square_diff (p t : Qc) : Qc := ((p - t) * (p - t))%Qc.

(** The squared error of every entry of two rank-3 tensors of one shape. *)
Definition squared_errors (pred target : list Matrix) : list Matrix :=
  zip_with (zip_with (zip_with square_diff)) pred target.

(** The sum over the output and batch axes, then over the ensemble axis. *)
Definition sum_of_squares (pred target : list Matrix) : Qc :=
  vsum (map (fun m => vsum (map vsum m)) (squared_errors pred target)).

(** The target has the rank of the input and, member by member, one row of
    [out] entries for every row of the input. *)
Definition target_fits (n out : nat) (x target : Tensor) : Prop :=
  ndim x = ndim target
  /\ length (per_member n x) = n
  /\ Forall2 (fun xm tm => Forall2 (fun (_ r : Vec) => length r = out) xm tm)
             (per_member n x) (per_member n target).

(** The KL term of every Bayesian unit of the network, their sum, and their
    mean. *)
Definition unit_kl (self : BNN) : list Qc := map Layer.kl_divergence (linear_layers self).
Definition kl_sum (self : BNN) : Qc := vsum (unit_kl self).
Definition kl_mean_over_units (self : BNN) : Qc :=
  (vsum (unit_kl self) / qnat (length (unit_kl self)))%Qc.

Definition arithmetic_mean (l : list Qc) : Qc := (vsum l / qnat (length l))%Qc.

Section Objective.
Context `{VariationalSampler} `{PermutationSource}.

(** The prediction of every member for every row of its batch, in the pass
    that starts in state [s]. *)
Definition prediction (s : Machine) (x : Tensor) : list Matrix :=
  zip_with (fun e m => map (member_row (net s) (rng s) e) m)
    (seq 0 (num_members (net s))) (per_member (num_members (net s)) x).

(** The same with every weight at its posterior mean. *)
Definition frozen_prediction (self : BNN) (x : Tensor) : list Matrix :=
  zip_with (fun e m => map (frozen_row self e) m)
    (seq 0 (num_members self)) (per_member (num_members self) x).

(** The state after [k] passes without elite restriction. *)
Definition after_passes (k : nat) (s : Machine) : Machine :=
  Nat.iter k (after_default_forward false) s.

(** The permutation that the shuffling modes use: drawn from the random
    generator, or the one the caller gave; and the state once it is drawn. *)
Definition shuffle_indices (method : string) (propagation_indices : option (list nat))
    (s : Machine) (n : nat) : list nat :=
  if String.eqb method "random_model" then randperm (rng s) n
  else default [] propagation_indices.

Definition after_draw (method : string) (n : nat) (s : Machine) : Machine :=
  if String.eqb method "random_model"
  then {| net := net s; rng := S (rng s); trace := trace s ++ [PermDraw n] |}
  else s.

(** The sum that the k-th Monte-Carlo iteration contributes: the sum of
    squares of its own forward pass plus the weighted KL of its sample. *)
Definition elbo_term (inputs labels : Tensor) (complexity_cost_weight : Qc) (s : Machine)
    (k : nat) : Qc :=
  (sum_of_squares (prediction (after_passes k s) inputs)
                  (per_member (num_members (net s)) labels)
   + kl_sum (net (after_passes (S k) s)) * complexity_cost_weight)%Qc.

End Objective.


(** ** Concrete instances, used to run the model *)

Definition qz (z : Z) : Qc := Q2Qc (inject_Z z).

(** A sampler that moves every weight of the mean by [g + 1]. *)
Definition example_sampler : VariationalSampler :=
  {| draw := fun g i p =>
       {| weight := map (map (fun w => (w + qnat (S g))%Qc)) (weight (post_mu p));
          bias := bias (post_mu p) |};
     log_posterior := fun us ws => qnat (length ws);
     log_prior_of := fun ws => 0%Qc |}.

(** The source of permutations that reverses [0, n). *)
Program Definition example_permutations : PermutationSource :=
  {| randperm := fun g n => reverse (seq 0 n) |}.
Next Obligation. intros. apply reverse_Permutation. Qed.

Definition example_init (k l_in l_out e : nat) : Posterior :=
  let a :=
    {| weight := map (fun i => map (fun j => qz (Z.of_nat (k + i + 2 * j + e) - 2)) (seq 0 l_out))
                     (seq 0 l_in);
       bias := map (fun j => qz (Z.of_nat (j + e))) (seq 0 l_out) |} in
  {| post_mu := a; post_rho := a |}.

(** Two members, two inputs, two hidden units, one output, one hidden block. *)
Definition small_net (propagation_method : option string) (freeze : bool) : BNN :=
  BNN_init 2 1 1 2 2 freeze propagation_method relu example_init.

Definition start (self : BNN) : Machine := {| net := self; rng := 0; trace := [] |}.

(** The scenario of the smoke test: three members, five inputs, four outputs,
    ten hidden units, two hidden blocks. *)
Definition smoke_net : BNN :=
  BNN_init 5 4 2 3 10 false (Some "expectation"%string) relu example_init.

Definition smoke_batch : Matrix :=
  map (fun b => map (fun i => qz (Z.of_nat (b + i) - 3)) (seq 0 5)) (seq 0 3).

(** A batch of two examples for [small_net], and targets for it. *)
Definition small_batch : Tensor := T2 [[qz 1; qz 2]; [qz 0; qz 1]].
Definition small_target : Tensor := T2 [[qz 1]; [qz 0]].

(** A model whose flag is set while its layers sample. *)
Definition thawed_layers_net : BNN := with_freeze true (small_net None false).

(** Two members of which the first is elite. *)
Definition elite_net : BNN :=
  with_elite_models (Some [0]) (small_net (Some "expectation"%string) false).

(** ** The same ensemble under another configuration *)

(** The ensemble with the propagation method [method], everything else as in
    [self]: what the constructor gives for another [propagation_method]
    argument. *)
Definition with_propagation_method (method : option string) (self : BNN) : BNN :=
  {| num_members := num_members self; propagation_method := method;
     in_size := in_size self; out_size := out_size self;
     hidden_layers := hidden_layers self; output_layer := output_layer self;
     freeze := freeze self; elite_models := elite_models self |}.

(** The machine whose model is [self], the rest as in [s]. *)
Definition with_net (self : BNN) (s : Machine) : Machine :=
  {| net := self; rng := rng s; trace := trace s |}.

(** One member, two inputs, two hidden units, one output. *)
Definition single_net : BNN := BNN_init 2 1 1 1 2 false None relu example_init.

(** ** What a call leaves alone *)

(** The layer without what a forward pass writes to it: the elite list, the
    [use_only_elite] flag and the log-densities of its last sample.  What is
    left are the posteriors of its units, its sizes and its freeze flag. *)
Definition layer_parameters (l : EnsembleLinearBayesian) : EnsembleLinearBayesian :=
  Layer.with_elite None (Layer.with_use_only_elite false (Layer.settings l)).

(** The ensemble with every linear layer reduced to its parameters. *)
Definition net_parameters (self : BNN) : BNN :=
  with_layers (map (on_layer layer_parameters) (hidden_layers self))
              (layer_parameters (output_layer self)) self.

(** The computation leaves the parameters alone, whatever it returns or
    raises. *)
Definition keeps_parameters {A} (c : M A) : Prop :=
  forall s, net_parameters (net (c s).2) = net_parameters (net s).

(** ** Properties *)

(** *** Running the monad *)

Ltac run_step :=
  unfold mbind, machine_bind, outcome_bind, mret, machine_ret, outcome_ret,
    raise, lift, get_self, update_self, py_assert in *; simpl in *.

Ltac run := repeat progress run_step.

Lemma bind_ok {A B} (c : M A) (f : A -> M B) (s s' : Machine) (a : A) :
  c s = (Ok a, s') -> (c ≫= f) s = f a s'.
Proof. intros Hc. unfold mbind, machine_bind. by rewrite Hc. Qed.

Lemma bind_raise {A B} (c : M A) (f : A -> M B) (s s' : Machine) (e : PyError) :
  c s = (Raise e, s') -> (c ≫= f) s = (Raise e, s').
Proof. intros Hc. unfold mbind, machine_bind. by rewrite Hc. Qed.

Lemma machine_eta (s : Machine) :
  {| net := net s; rng := rng s; trace := trace s |} = s.
Proof. by destruct s. Qed.

Lemma with_layers_same (self : BNN) :
  with_layers (hidden_layers self) (output_layer self) self = self.
Proof. by destruct self. Qed.

(** *** Elite selection *)

(** C3: [set_elite] is a no-op for an index list as long as the ensemble, and
    replaces [elite_models] by the given list otherwise. *)
Theorem set_elite_guard (elite_indices : list nat) (s : Machine) :
  (length elite_indices = num_members (net s) ->
     set_elite elite_indices s = (Ok tt, s)) /\
  (length elite_indices <> num_members (net s) ->
     set_elite elite_indices s
     = (Ok tt, {| net := with_elite_models (Some elite_indices) (net s);
                  rng := rng s; trace := trace s |})).
Proof.
  unfold set_elite. run. split; intros Hlen.
  - apply Nat.eqb_eq in Hlen. by rewrite Hlen.
  - apply Nat.eqb_neq in Hlen. by rewrite Hlen.
Qed.

Lemma set_elite_guard_witness :
  set_elite [0; 1] (start (small_net None false)) = (Ok tt, start (small_net None false))
  /\ elite_models (net (set_elite [1] (start (small_net None false))).2) = Some [1].
Proof.
  split.
  - apply (proj1 (set_elite_guard [0; 1] (start (small_net None false)))). reflexivity.
  - rewrite (proj2 (set_elite_guard [1] (start (small_net None false)))).
    + reflexivity.
    + simpl. lia.
Defined.

(** *** What the layer stack leaves untouched *)

Section Frame.
Context `{VariationalSampler} `{PermutationSource}.

Lemma after_pass_settings (l : EnsembleLinearBayesian) (g : nat) :
  Layer.settings (Layer.after_pass l g) = Layer.settings l.
Proof. unfold Layer.after_pass. by destruct (layer_freeze l). Qed.

Lemma forward_layer_after (l : EnsembleLinearBayesian) (g : nat) (x : Tensor) :
  (Layer.forward l g x).1.2 = Layer.after_pass l g.
Proof. reflexivity. Qed.

Lemma hidden_stack_settings ls g x r hs g' evs :
  hidden_stack ls g x = (r, hs, g', evs) ->
  map (fun layer => (Layer.settings layer.1, layer.2)) hs
  = map (fun layer => (Layer.settings layer.1, layer.2)) ls.
Proof.
  revert g x r hs g' evs.
  induction ls as [|[l act] rest IH]; intros g x r hs g' evs Hrun; simpl in Hrun.
  - by inversion Hrun.
  - unfold Layer.forward in Hrun.
    destruct (Layer.select_members l (Layer.pass_weights l g) ≫= _) as [y|e].
    + destruct (hidden_stack rest _ _) as [[[r1 hs1] g1] evs1] eqn:Hrest.
      inversion Hrun; subst. simpl.
      rewrite after_pass_settings. f_equal. eapply IH, Hrest.
    + inversion Hrun; subst. simpl. by rewrite after_pass_settings.
Qed.

Lemma call_hidden_layers_settings x s r s' :
  call_hidden_layers x s = (r, s') -> net_settings (net s') = net_settings (net s).
Proof.
  unfold call_hidden_layers.
  destruct (hidden_stack _ _ _) as [[[r1 hs] g] evs] eqn:Hrun.
  intros [= <- <-]. unfold net_settings. simpl.
  by rewrite (hidden_stack_settings _ _ _ _ _ _ _ Hrun).
Qed.

Lemma call_output_layer_settings x s r s' :
  call_output_layer x s = (r, s') -> net_settings (net s') = net_settings (net s).
Proof.
  unfold call_output_layer, Layer.forward. intros [= <- <-].
  unfold net_settings. simpl. by rewrite after_pass_settings.
Qed.

Lemma elite_flags_settings (self : BNN) :
  elite_flags (net_settings self) = elite_flags self.
Proof.
  unfold elite_flags, linear_layers, net_settings. simpl.
  rewrite !map_app, !map_map. reflexivity.
Qed.

Lemma freeze_flags_settings (self : BNN) :
  freeze_flags (net_settings self) = freeze_flags self.
Proof.
  unfold freeze_flags, linear_layers, net_settings. simpl.
  rewrite !map_app, !map_map. reflexivity.
Qed.

Lemma settings_fields (a b : BNN) :
  net_settings a = net_settings b ->
  num_members a = num_members b /\ elite_models a = elite_models b
  /\ freeze a = freeze b /\ propagation_method a = propagation_method b
  /\ elite_flags a = elite_flags b /\ freeze_flags a = freeze_flags b.
Proof.
  intros Heq.
  rewrite <- (elite_flags_settings a), <- (elite_flags_settings b).
  rewrite <- (freeze_flags_settings a), <- (freeze_flags_settings b).
  rewrite Heq. repeat split; by inversion Heq.
Qed.

Lemma layer_stack_settings x s r s' :
  layer_stack x s = (r, s') -> net_settings (net s') = net_settings (net s).
Proof.
  unfold layer_stack, mbind, machine_bind.
  destruct (call_hidden_layers x s) as [[h|e] s1] eqn:Hh.
  - intros Ho. rewrite (call_output_layer_settings _ _ _ _ Ho).
    eapply call_hidden_layers_settings, Hh.
  - intros [= <- <-]. eapply call_hidden_layers_settings, Hh.
Qed.

Lemma default_forward_unfold x only_elite s :
  _default_forward x only_elite s
  = match _maybe_toggle_layers_use_only_elite only_elite s with
    | (Ok _, s1) =>
        match layer_stack x s1 with
        | (Ok output, s2) =>
            match _maybe_toggle_layers_use_only_elite only_elite s2 with
            | (Ok _, s3) => (Ok output, s3)
            | (Raise e, s3) => (Raise e, s3)
            end
        | (Raise e, s2) => (Raise e, s2)
        end
    | (Raise e, s1) => (Raise e, s1)
    end.
Proof.
  unfold _default_forward, layer_stack, mbind, machine_bind.
  destruct (_maybe_toggle_layers_use_only_elite only_elite s) as [[[]|e] s1]; [|done].
  destruct (call_hidden_layers x s1) as [[h|e] s2]; [|done].
  destruct (call_output_layer h s2) as [[o|e] s3]; [|done].
  by destruct (_maybe_toggle_layers_use_only_elite only_elite s3) as [[[]|e] s4].
Qed.

Lemma maybe_toggle_run only_elite s :
  _maybe_toggle_layers_use_only_elite only_elite s
  = (Ok tt, if toggles only_elite (net s)
            then {| net := toggled (net s); rng := rng s; trace := trace s |}
            else s).
Proof.
  unfold _maybe_toggle_layers_use_only_elite, toggles, toggled. run.
  destruct (elite_models (net s)); [|done].
  by destruct ((1 <? num_members (net s)) && only_elite).
Qed.

Lemma toggled_flags (self : BNN) :
  toggles true self = true ->
  elite_flags (toggled self) = map negb (elite_flags self).
Proof.
  unfold toggles, toggled, elite_flags, linear_layers.
  destruct (elite_models self); [|done]. intros _. simpl.
  rewrite !map_app, !map_map. reflexivity.
Qed.

Lemma toggles_settings only_elite (a b : BNN) :
  net_settings a = net_settings b -> toggles only_elite a = toggles only_elite b.
Proof.
  intros Heq. destruct (settings_fields _ _ Heq) as (HE & Hel & _).
  unfold toggles. by rewrite HE, Hel.
Qed.

Lemma toggles_true only_elite self :
  toggles only_elite self = true -> toggles true self = true.
Proof.
  unfold toggles. destruct (elite_models self); [|done].
  intros [-> _]%andb_true_iff. done.
Qed.

End Frame.

(** *** The elite restriction around the layer stack *)

Section EliteFlags.
Context `{VariationalSampler} `{PermutationSource}.

Lemma toggles_off (self : BNN) : toggles false self = false.
Proof. unfold toggles. destruct (elite_models self); [|done]. apply andb_false_r. Qed.

Lemma default_forward_plain_settings x s r s' :
  _default_forward x false s = (r, s') -> net_settings (net s') = net_settings (net s).
Proof.
  rewrite default_forward_unfold, maybe_toggle_run, toggles_off.
  destruct (layer_stack x s) as [[o|e] s2] eqn:Hstack.
  - rewrite maybe_toggle_run, toggles_off. intros [= <- <-].
    eapply layer_stack_settings, Hstack.
  - intros [= <- <-]. eapply layer_stack_settings, Hstack.
Qed.

Lemma toggles_toggled only_elite (self : BNN) :
  toggles only_elite (toggled self) = toggles only_elite self.
Proof.
  unfold toggles, toggled. destruct (elite_models self) eqn:Hel; simpl; by rewrite ?Hel.
Qed.

(** C9: a call of the default forward pass that returns leaves the
    [use_only_elite] flag of every layer as it was on entry; the toggle runs
    once before and once after the layer stack, and both runs change nothing
    when [elite_models] is unset or [num_members] is 1. *)
Theorem default_forward_restores_elite_flags x only_elite s output s' :
  _default_forward x only_elite s = (Ok output, s') ->
  elite_flags (net s') = elite_flags (net s)
  /\ (exists s1 s2,
         _maybe_toggle_layers_use_only_elite only_elite s = (Ok tt, s1)
         /\ layer_stack x s1 = (Ok output, s2)
         /\ _maybe_toggle_layers_use_only_elite only_elite s2 = (Ok tt, s'))
  /\ (elite_models (net s) = None \/ num_members (net s) = 1 ->
        _maybe_toggle_layers_use_only_elite only_elite s = (Ok tt, s)
        /\ layer_stack x s = (Ok output, s')
        /\ _maybe_toggle_layers_use_only_elite only_elite s' = (Ok tt, s')).
Proof.
  rewrite default_forward_unfold, maybe_toggle_run.
  set (s1 := if toggles only_elite (net s) then _ else s).
  destruct (layer_stack x s1) as [[o|e] s2] eqn:Hstack; [|done].
  rewrite maybe_toggle_run. intros [= <- <-].
  pose proof (layer_stack_settings _ _ _ _ Hstack) as Hset.
  assert (Htog : toggles only_elite (net s2) = toggles only_elite (net s)).
  { rewrite (toggles_settings _ _ _ Hset). subst s1.
    destruct (toggles only_elite (net s)) eqn:Ht; [|done]. simpl.
    by rewrite toggles_toggled. }
  split; [|split].
  - destruct (settings_fields _ _ Hset) as (_ & _ & _ & _ & Hflags & _).
    rewrite Htog. subst s1. destruct (toggles only_elite (net s)) eqn:Ht.
    + simpl in *. pose proof (toggles_true _ _ Ht) as Ht1.
      rewrite toggled_flags.
      * rewrite Hflags, (toggled_flags _ Ht1), map_map.
        rewrite <- (map_id (elite_flags (net s))) at 2.
        apply map_ext. intros b. apply negb_involutive.
      * by rewrite (toggles_settings _ _ _ Hset), toggles_toggled.
    + done.
  - exists s1, s2. rewrite maybe_toggle_run. by rewrite Htog.
  - intros Hnoop.
    assert (Hoff : toggles only_elite (net s) = false).
    { unfold toggles. destruct Hnoop as [-> | ->]; [done|].
      by destruct (elite_models (net s)). }
    subst s1. rewrite Hoff in *. rewrite !maybe_toggle_run, !Htog. done.
Qed.

End EliteFlags.

Lemma default_forward_restores_elite_flags_witness :
  let run := @_default_forward example_sampler (T3 [[[1; 1]]]%Qc) true (start elite_net) in
  run = (Ok (value_of [] run.1), run.2)
  /\ elite_flags (net run.2) = elite_flags (net (start elite_net)).
Proof.
  intros run.
  assert (Hrun : run = (Ok (value_of [] run.1), run.2)) by (vm_compute; reflexivity).
  split; [exact Hrun|].
  exact (proj1 (@default_forward_restores_elite_flags example_sampler
                  (T3 [[[1; 1]]]%Qc) true (start elite_net) _ _ Hrun)).
Defined.

(** C9, as stated, fails for a call that raises inside the layer stack: with
    two members of which one is elite, a batch with one feature instead of
    two is refused by the first layer after the flags were switched on, and
    they stay on. *)
Lemma default_forward_raise_keeps_flags_on :
  let run := @_default_forward example_sampler (T2 [[1%Qc]]) true (start elite_net) in
  run.1 = Raise RuntimeError
  /\ elite_flags (net (start elite_net)) = [false; false]
  /\ elite_flags (net run.2) = [true; true].
Proof. vm_compute. done. Qed.

(** *** The tensor primitives on well-shaped arguments *)

Lemma gather_in_range {A} `{!Inhabited A} (idx : list nat) (l : list A) :
  Forall (fun i => i < length l) idx ->
  Torch.gather idx l = Ok (map (fun i => l !!! i) idx).
Proof.
  induction 1 as [|i idx Hi _ IH]; simpl; [done|].
  destruct (lookup_lt_is_Some_2 l i Hi) as [a Ha].
  rewrite Ha, IH. simpl. by rewrite (list_lookup_total_correct _ _ _ Ha).
Qed.

Lemma map_lookup_total_seq {A} `{!Inhabited A} (l : list A) :
  map (fun i => l !!! i) (seq 0 (length l)) = l.
Proof.
  apply list_eq. intros i. rewrite list_lookup_fmap.
  destruct (decide (i < length l)) as [Hi|Hi].
  - rewrite lookup_seq_lt by done. simpl.
    by rewrite list_lookup_lookup_total_lt.
  - rewrite lookup_seq_ge by lia. by rewrite lookup_ge_None_2 by lia.
Qed.

Lemma each_ok {A C} (g : A -> C) (a : list A) :
  Torch.each (fun x => Ok (g x)) a = Ok (map g a).
Proof. induction a as [|x a IH]; simpl; [done|]. by rewrite IH. Qed.

Lemma pairwise_ok {A B C} (g : A -> B -> C) (a : list A) (b : list B) :
  length a = length b ->
  Torch.pairwise (fun x y => Ok (g x y)) a b = Ok (zip_with g a b).
Proof.
  revert b. induction a as [|x a IH]; intros [|y b] Hlen; simpl in *; try done.
  rewrite IH by lia. done.
Qed.

Lemma broadcast_same_length {A B C} (g : A -> B -> C) (a : list A) (b : list B) :
  length a = length b ->
  Torch.broadcast (fun x y => Ok (g x y)) a b = Ok (zip_with g a b).
Proof.
  intros Hlen. unfold Torch.broadcast.
  destruct a as [|x [|x' a]], b as [|y [|y' b]]; simpl in Hlen; try done.
  apply (pairwise_ok g (x :: x' :: a) (y :: y' :: b)). simpl. lia.
Qed.

Lemma broadcast_one_right {A B C} (g : A -> B -> C) (a : list A) (y : B) :
  Torch.broadcast (fun x y => Ok (g x y)) a [y]
  = Ok (zip_with g a (replicate (length a) y)).
Proof.
  unfold Torch.broadcast.
  rewrite zip_with_replicate_r_eq by done.
  destruct a as [|x [|x' a]]; try done.
  apply (each_ok (fun x => g x y)).
Qed.

Lemma zip_with_zip_with_r {A B C D} (f : A -> C -> D) (h : A -> B -> C)
    (a : list A) (b : list B) :
  zip_with f a (zip_with h a b) = zip_with (fun x y => f x (h x y)) a b.
Proof.
  revert b. induction a as [|x a IH]; intros [|y b]; simpl; try done.
  by rewrite IH.
Qed.

Lemma forallb_Forall {A} (p : A -> bool) (l : list A) :
  forallb p l = true <-> Forall (fun x => p x = true) l.
Proof. rewrite forallb_forall, Forall_forall. by setoid_rewrite list_elem_of_In. Qed.

(** *** One linear layer *)

Section LayerForward.
Context `{VariationalSampler}.

Lemma pass_weights_length (l : EnsembleLinearBayesian) (g : nat) :
  length (Layer.pass_weights l g) = length (units l).
Proof.
  unfold Layer.pass_weights. destruct (layer_freeze l).
  - apply length_map.
  - apply length_imap.
Qed.

Lemma affine_row_length (out : nat) (a : Affine) (x : Vec) :
  length (Layer.affine_row out a x) = out.
Proof. unfold Layer.affine_row. by rewrite length_map, length_seq. Qed.

Lemma rows_ok_T3 (n : nat) (t : list Matrix) :
  Layer.rows_ok n (T3 t) = true <-> rows_of n t.
Proof.
  simpl. rewrite forallb_Forall. unfold rows_of.
  apply Forall_iff. intros m. rewrite forallb_Forall.
  apply Forall_iff. intros r. apply Nat.eqb_eq.
Qed.

Lemma rows_of_per_member (n k : nat) (x : Tensor) :
  Layer.rows_ok n x = true -> rows_of n (per_member k x).
Proof.
  intros Hok. destruct x as [m|t].
  - simpl in *. apply Forall_replicate. apply forallb_Forall in Hok.
    eapply Forall_impl; [exact Hok|]. intros r. apply Nat.eqb_eq.
  - apply rows_ok_T3 in Hok. destruct t as [|m [|m' t]]; try done.
    simpl. apply Forall_replicate. by inversion Hok.
Qed.

Lemma batched_affine_per_member l ws x :
  Layer.rows_ok (in_features l) x = true ->
  length (per_member (length ws) x) = length ws ->
  Layer.batched_affine l ws x
  = Ok (zip_with (Layer.unit_apply (out_features l)) ws (per_member (length ws) x)).
Proof.
  intros Hok Hlen. unfold Layer.batched_affine. rewrite Hok. simpl.
  destruct x as [m|t].
  - simpl. by rewrite zip_with_replicate_r_eq.
  - destruct t as [|m [|m' t]].
    + simpl in *. by rewrite broadcast_same_length.
    + apply (broadcast_one_right (Layer.unit_apply (out_features l))).
    + by rewrite broadcast_same_length.
Qed.

Lemma layer_forward_run l g x ms :
  selects ms l ->
  Layer.rows_ok (in_features l) x = true ->
  length (per_member (length ms) x) = length ms ->
  Layer.forward l g x
  = (Ok (zip_with (fun e m => Layer.unit_apply (out_features l) (Layer.pass_weights l g !!! e) m)
                  ms (per_member (length ms) x)),
     Layer.after_pass l g, Layer.rng_after l g).
Proof.
  intros Hsel Hok Hlen. unfold Layer.forward. rewrite Hsel. simpl.
  rewrite batched_affine_per_member; rewrite ?length_map; try done.
  by rewrite zip_with_fmap_l.
Qed.

End LayerForward.

(** *** The layer stack as a function on rows *)

Lemma map_zip_with {A B C D} (f : C -> D) (g : A -> B -> C) (a : list A) (b : list B) :
  map f (zip_with g a b) = zip_with (fun x y => f (g x y)) a b.
Proof. revert b. induction a as [|x a IH]; intros [|y b]; simpl; try done. by rewrite IH. Qed.

Lemma zip_with_second {A B} (a : list A) (b : list B) :
  length b = length a -> zip_with (fun _ y => y) a b = b.
Proof.
  revert b. induction a as [|x a IH]; intros [|y b] Hlen; simpl in *; try done.
  rewrite IH by lia. done.
Qed.

Lemma per_member_T3 (n : nat) (t : list Matrix) :
  length t = n -> per_member n (T3 t) = t.
Proof. intros <-. by destruct t as [|m [|m' t]]. Qed.

Section Stack.
Context `{VariationalSampler}.

Lemma chained_app n ls tl out :
  chained n (ls ++ tl) out = true ->
  exists n', chained n' tl out = true
             /\ (forall l rest, ls = l :: rest -> in_features l = n).
Proof.
  revert n. induction ls as [|l ls IH]; intros n Hch; simpl in *.
  - exists n. split; [done|]. intros; discriminate.
  - apply andb_true_iff in Hch as [Hin Hch]. apply Nat.eqb_eq in Hin.
    destruct (IH _ Hch) as (n' & Hn' & _). exists n'. split; [done|].
    by intros ? ? [= <- <-].
Qed.

Lemma rows_of_zip_with n (ms : list nat) (t : list Matrix) (f : nat -> Vec -> Vec) :
  (forall e r, length (f e r) = n) ->
  rows_of n (zip_with (fun e m => map (f e) m) ms t).
Proof.
  intros Hf. unfold rows_of. revert t.
  induction ms as [|e ms IH]; intros [|m t]; simpl; try by constructor.
  constructor; [|apply IH]. rewrite Forall_fmap. apply Forall_forall. intros r _.
  simpl. apply Hf.
Qed.

Lemma hidden_stack_cons l act rest g x :
  hidden_stack ((l, act) :: rest) g x
  = match Layer.forward l g x with
    | (Raise e, l', g') => (Raise e, (l', act) :: rest, g', [layer_event l])
    | (Ok y, l', g') =>
        let '(r', rest', g'', evs) :=
          hidden_stack rest g' (T3 (map (map (map act)) y)) in
        (r', (l', act) :: rest', g'', layer_event l :: evs)
    end.
Proof. simpl. by destruct (Layer.forward l g x) as [[[y|e] l'] g']. Qed.

Lemma hidden_stack_run ls ms n tl out g t :
  Forall (selects ms) (map fst ls) ->
  chained n (map fst ls ++ tl) out = true ->
  rows_of n t ->
  length t = length ms ->
  exists n',
    hidden_stack ls g (T3 t)
    = (Ok (T3 (zip_with (fun e m => map (hidden_row ls g e) m) ms t)),
       hidden_after ls g, stack_rng (map fst ls) g, map (fun layer => layer_event layer.1) ls)
    /\ rows_of n' (zip_with (fun e m => map (hidden_row ls g e) m) ms t)
    /\ chained n' tl out = true.
Proof.
  revert n g t. induction ls as [|[l act] rest IH]; intros n g t Hsel Hch Hrows Hlen.
  - exists n. simpl in *.
    assert (Hid : zip_with (fun (_ : nat) (m : list Vec) => map (fun x : Vec => x) m) ms t = t).
    { rewrite <- (zip_with_second ms t Hlen) at 2.
      apply zip_with_ext; [|done|done]. intros e m. apply (list_fmap_id m). }
    rewrite Hid. done.
  - simpl in Hsel, Hch. apply Forall_cons in Hsel as [Hl Hrest].
    apply andb_true_iff in Hch as [Hin Hch]. apply Nat.eqb_eq in Hin.
    rewrite hidden_stack_cons.
    rewrite (layer_forward_run l g (T3 t) ms Hl).
    2:{ rewrite Hin. by apply rows_ok_T3. }
    2:{ by rewrite per_member_T3. }
    rewrite per_member_T3 by done.
    set (y := zip_with _ ms t).
    assert (Hy : map (map (map act)) y
                 = zip_with (fun e m =>
                      map (fun r => map act (Layer.affine_row (out_features l)
                                               (Layer.pass_weights l g !!! e) r)) m) ms t).
    { subst y. rewrite map_zip_with. apply zip_with_ext; [|done|done].
      intros e m. unfold Layer.unit_apply. by rewrite map_map. }
    rewrite Hy.
    destruct (IH (out_features l) (Layer.rng_after l g)
                 (zip_with (fun e m =>
                      map (fun r => map act (Layer.affine_row (out_features l)
                                               (Layer.pass_weights l g !!! e) r)) m) ms t)
                 Hrest Hch) as (n' & Hrun & Hrows' & Hch').
    { apply rows_of_zip_with. intros e r. by rewrite length_map, affine_row_length. }
    { by apply length_zip_with_l_eq. }
    match type of Hrows' with
    | rows_of _ ?X =>
        assert (Hfinal : X = zip_with (fun e m => map (hidden_row ((l, act) :: rest) g e) m) ms t)
    end.
    { rewrite zip_with_zip_with_r. apply zip_with_ext; [|done|done].
      intros e m. by rewrite map_map. }
    rewrite Hfinal in Hrun, Hrows'.
    exists n'. rewrite Hrun. done.
Qed.

Lemma hidden_stack_run_input ls ms n tl out g x :
  ls <> [] ->
  Forall (selects ms) (map fst ls) ->
  chained n (map fst ls ++ tl) out = true ->
  Layer.rows_ok n x = true ->
  length (per_member (length ms) x) = length ms ->
  exists n',
    hidden_stack ls g x
    = (Ok (T3 (zip_with (fun e m => map (hidden_row ls g e) m) ms
                 (per_member (length ms) x))),
       hidden_after ls g, stack_rng (map fst ls) g, map (fun layer => layer_event layer.1) ls)
    /\ rows_of n' (zip_with (fun e m => map (hidden_row ls g e) m) ms
                     (per_member (length ms) x))
    /\ chained n' tl out = true.
Proof.
  intros Hne Hsel Hch Hrows Hlen.
  destruct ls as [|[l act] rest]; [done|]. clear Hne.
  simpl in Hsel, Hch. apply Forall_cons in Hsel as [Hl Hrest].
  apply andb_true_iff in Hch as [Hin Hch]. apply Nat.eqb_eq in Hin.
  rewrite hidden_stack_cons.
  rewrite (layer_forward_run l g x ms Hl); [|by rewrite Hin|done].
  set (t := per_member (length ms) x) in *.
  set (y := zip_with _ ms t).
  assert (Hy : map (map (map act)) y
               = zip_with (fun e m =>
                    map (fun r => map act (Layer.affine_row (out_features l)
                                             (Layer.pass_weights l g !!! e) r)) m) ms t).
  { subst y. rewrite map_zip_with. apply zip_with_ext; [|done|done].
    intros e m. unfold Layer.unit_apply. by rewrite map_map. }
  rewrite Hy.
  destruct (hidden_stack_run rest ms (out_features l) tl out (Layer.rng_after l g)
               (zip_with (fun e m =>
                    map (fun r => map act (Layer.affine_row (out_features l)
                                             (Layer.pass_weights l g !!! e) r)) m) ms t)
               Hrest Hch) as (n' & Hrun & Hrows' & Hch').
  { apply rows_of_zip_with. intros e r. by rewrite length_map, affine_row_length. }
  { by apply length_zip_with_l_eq. }
  match type of Hrows' with
  | rows_of _ ?X =>
      assert (Hfinal : X = zip_with (fun e m => map (hidden_row ((l, act) :: rest) g e) m) ms t)
  end.
  { rewrite zip_with_zip_with_r. apply zip_with_ext; [|done|done].
    intros e m. by rewrite map_map. }
  rewrite Hfinal in Hrun, Hrows'.
  exists n'. rewrite Hrun. done.
Qed.

Lemma stack_rng_app ls tl g :
  stack_rng (ls ++ tl) g = stack_rng tl (stack_rng ls g).
Proof. revert g. induction ls as [|l ls IH]; intros g; simpl; [done|]. apply IH. Qed.

Lemma layer_stack_run x s ms :
  Forall (selects ms) (linear_layers (net s)) ->
  chained (in_size (net s)) (linear_layers (net s)) (out_size (net s)) = true ->
  hidden_layers (net s) <> [] ->
  Layer.rows_ok (in_size (net s)) x = true ->
  length (per_member (length ms) x) = length ms ->
  layer_stack x s
  = (Ok (zip_with (fun e m => map (member_row (net s) (rng s) e) m) ms
           (per_member (length ms) x)),
     {| net := with_layers
                 (hidden_after (hidden_layers (net s)) (rng s))
                 (Layer.after_pass (output_layer (net s))
                    (stack_rng (map fst (hidden_layers (net s))) (rng s)))
                 (net s);
        rng := stack_rng (linear_layers (net s)) (rng s);
        trace := trace s ++ map layer_event (linear_layers (net s)) |})
  /\ rows_of (out_size (net s))
       (zip_with (fun e m => map (member_row (net s) (rng s) e) m) ms
          (per_member (length ms) x)).
Proof.
  intros Hsel Hch Hne Hrows Hlen. unfold linear_layers in *.
  apply Forall_app in Hsel as [Hhid Hout]. rewrite Forall_singleton in Hout.
  destruct (hidden_stack_run_input _ ms _ _ _ (rng s) x Hne Hhid Hch Hrows Hlen)
    as (n' & Hrun & Hrows' & Hch').
  simpl in Hch'. apply andb_true_iff in Hch' as [Hin Hlast].
  apply Nat.eqb_eq in Hin. apply Nat.eqb_eq in Hlast.
  unfold layer_stack, mbind, machine_bind, call_hidden_layers. rewrite Hrun.
  pose proof (layer_forward_run (output_layer (net s))
                (stack_rng (map fst (hidden_layers (net s))) (rng s))
                (T3 (zip_with (fun e m => map (hidden_row (hidden_layers (net s)) (rng s) e) m)
                       ms (per_member (length ms) x))) ms Hout) as Hfw.
  rewrite per_member_T3 in Hfw by (by apply length_zip_with_l_eq).
  specialize (Hfw ltac:(rewrite Hin; by apply rows_ok_T3)
                  ltac:(by apply length_zip_with_l_eq)).
  unfold call_output_layer. simpl. unfold Layer.forward in Hfw.
  injection Hfw as Hfw. rewrite Hfw. clear Hfw.
  set (t := per_member (length ms) x) in *.
  assert (Hfinal :
    zip_with (fun e m => Layer.unit_apply (out_features (output_layer (net s)))
                (Layer.pass_weights (output_layer (net s))
                   (stack_rng (map fst (hidden_layers (net s))) (rng s)) !!! e) m)
      ms (zip_with (fun e m => map (hidden_row (hidden_layers (net s)) (rng s) e) m) ms t)
    = zip_with (fun e m => map (member_row (net s) (rng s) e) m) ms t).
  { rewrite zip_with_zip_with_r. apply zip_with_ext; [|done|done].
    intros e m. unfold Layer.unit_apply, member_row. by rewrite map_map. }
  rewrite Hfinal. split.
  - f_equal. f_equal.
    + by rewrite stack_rng_app.
    + rewrite map_app, map_map, <- app_assoc. done.
  - apply rows_of_zip_with. intros e r. unfold member_row.
    by rewrite affine_row_length.
Qed.

End Stack.

(** *** The default forward pass on well-formed models *)

Section DefaultForward.
Context `{VariationalSampler}.

Lemma keeps_weights_toggle elite : keeps_weights (toggle_layer elite).
Proof. by intros l. Qed.

Lemma keeps_weights_set_elite elite : keeps_weights (Layer.set_elite elite).
Proof. by intros l. Qed.

Lemma pass_weights_keeps f l g :
  keeps_weights f -> Layer.pass_weights (f l) g = Layer.pass_weights l g.
Proof.
  intros Hf. destruct (Hf l) as (Hu & Hfr & _ & _).
  unfold Layer.pass_weights. by rewrite Hu, Hfr.
Qed.

Lemma rng_after_keeps f l g :
  keeps_weights f -> Layer.rng_after (f l) g = Layer.rng_after l g.
Proof.
  intros Hf. destruct (Hf l) as (_ & Hfr & _ & _).
  unfold Layer.rng_after. by rewrite Hfr.
Qed.

Lemma layer_event_keeps f l : keeps_weights f -> layer_event (f l) = layer_event l.
Proof.
  intros Hf. destruct (Hf l) as (_ & Hfr & _ & _). unfold layer_event. by rewrite Hfr.
Qed.

Lemma stack_rng_keeps f ls g :
  keeps_weights f -> stack_rng (map f ls) g = stack_rng ls g.
Proof.
  intros Hf. revert g. induction ls as [|l ls IH]; intros g; simpl; [done|].
  by rewrite rng_after_keeps, IH.
Qed.

Lemma chained_keeps f n ls out :
  keeps_weights f -> chained n (map f ls) out = chained n ls out.
Proof.
  intros Hf. revert n. induction ls as [|l ls IH]; intros n; simpl; [done|].
  destruct (Hf l) as (_ & _ & -> & ->). by rewrite IH.
Qed.

Lemma hidden_row_keeps f hs g e x :
  keeps_weights f -> hidden_row (map (on_layer f) hs) g e x = hidden_row hs g e x.
Proof.
  intros Hf. revert g x. induction hs as [|[l act] hs IH]; intros g x; simpl; [done|].
  destruct (Hf l) as (_ & _ & _ & ->).
  by rewrite rng_after_keeps, pass_weights_keeps, IH.
Qed.

Lemma map_fst_on_layer f hs : map fst (map (on_layer f) hs) = map f (map fst hs).
Proof. by rewrite !map_map. Qed.

Lemma toggle_after_pass elite l g :
  toggle_layer elite (Layer.after_pass (toggle_layer elite l) g)
  = Layer.after_pass (Layer.set_elite elite l) g.
Proof.
  unfold Layer.after_pass, Layer.pass_weights, toggle_layer, Layer.toggle_use_only_elite,
    Layer.set_elite, Layer.with_elite, Layer.with_use_only_elite, Layer.with_densities.
  destruct l as [i o u le [] [] lq lp]; reflexivity.
Qed.

Lemma toggle_hidden_after elite hs g :
  map (on_layer (toggle_layer elite)) (hidden_after (map (on_layer (toggle_layer elite)) hs) g)
  = hidden_after (map (on_layer (Layer.set_elite elite)) hs) g.
Proof.
  revert g. induction hs as [|[l act] hs IH]; intros g; simpl; [done|].
  unfold on_layer at 1. simpl. rewrite toggle_after_pass.
  rewrite (rng_after_keeps (toggle_layer elite)) by apply keeps_weights_toggle.
  rewrite (rng_after_keeps (Layer.set_elite elite)) by apply keeps_weights_set_elite.
  by rewrite IH.
Qed.

Lemma selects_all l :
  use_only_elite l = false -> selects (seq 0 (length (units l))) l.
Proof.
  intros Hoff g. unfold Layer.select_members. rewrite Hoff.
  by rewrite <- (pass_weights_length l g), map_lookup_total_seq.
Qed.

Lemma selects_elite elite l :
  use_only_elite l = false ->
  Forall (fun i => i < length (units l)) elite ->
  selects elite (toggle_layer elite l).
Proof.
  intros Hoff Hin g. unfold Layer.select_members. simpl. rewrite Hoff. simpl.
  rewrite gather_in_range; [done|].
  by rewrite pass_weights_length.
Qed.

Lemma well_formed_layers (self : BNN) :
  well_formed self = true ->
  1 <= num_members self
  /\ Forall (fun l => length (units l) = num_members self /\ use_only_elite l = false)
            (linear_layers self)
  /\ hidden_layers self <> []
  /\ chained (in_size self) (linear_layers self) (out_size self) = true.
Proof.
  unfold well_formed. rewrite !andb_true_iff.
  intros [[[HE Hl] Hne] Hch]. repeat split; try done.
  - by apply Nat.leb_le.
  - apply forallb_Forall in Hl. eapply Forall_impl; [exact Hl|].
    intros l [Hu Hf]%andb_true_iff. split; [by apply Nat.eqb_eq|].
    by apply negb_true_iff.
  - intros Hnil. rewrite Hnil in Hne. done.
Qed.

Lemma valid_elite_range (self : BNN) elite :
  valid_elite self = true -> elite_models self = Some elite ->
  elite <> [] /\ Forall (fun i => i < num_members self) elite /\ NoDup elite.
Proof.
  unfold valid_elite. intros Hv Hel. rewrite Hel, !andb_true_iff in Hv.
  destruct Hv as [[Hne Hin] Hnd]. repeat split.
  - intros ->. done.
  - apply forallb_Forall in Hin. eapply Forall_impl; [exact Hin|].
    intros i. apply Nat.ltb_lt.
  - by apply bool_decide_eq_true in Hnd.
Qed.

Lemma linear_layers_toggled (self : BNN) elite :
  elite_models self = Some elite ->
  linear_layers (toggled self) = map (toggle_layer elite) (linear_layers self).
Proof.
  intros Hel. unfold toggled. rewrite Hel. unfold linear_layers. simpl.
  by rewrite map_app, !map_map.
Qed.

Lemma toggles_active only_elite (self : BNN) :
  active_members only_elite self
  = if toggles only_elite self
    then default [] (elite_models self)
    else seq 0 (num_members self).
Proof.
  unfold active_members, toggles. destruct (elite_models self); [|done].
  by destruct ((1 <? num_members self) && only_elite).
Qed.

Lemma mark_elite_toggles only_elite (self : BNN) :
  mark_elite only_elite self
  = if toggles only_elite self
    then match elite_models self with
         | Some elite =>
             with_layers (map (on_layer (Layer.set_elite elite)) (hidden_layers self))
                         (Layer.set_elite elite (output_layer self)) self
         | None => self
         end
    else self.
Proof.
  unfold mark_elite, toggles. destruct (elite_models self); [|done].
  by destruct ((1 <? num_members self) && only_elite).
Qed.

Lemma member_row_toggled (self : BNN) g e x :
  member_row (toggled self) g e x = member_row self g e x.
Proof.
  unfold toggled. destruct (elite_models self) as [elite|]; [|done].
  unfold member_row. simpl.
  rewrite (hidden_row_keeps (toggle_layer elite)) by apply keeps_weights_toggle.
  rewrite (map_fst_on_layer (toggle_layer elite)).
  rewrite (stack_rng_keeps (toggle_layer elite)) by apply keeps_weights_toggle.
  done.
Qed.

Lemma zip_member_row_toggled (self : BNN) g (ms : list nat) (t : list Matrix) :
  zip_with (fun (e : nat) (m : list Vec) => map (member_row (toggled self) g e) m) ms t
  = zip_with (fun (e : nat) (m : list Vec) => map (member_row self g e) m) ms t.
Proof.
  apply zip_with_ext; [|done|done]. intros e m.
  apply list_fmap_ext. intros i r _. apply member_row_toggled.
Qed.

Lemma toggles_with_layers only_elite hs o (self : BNN) :
  toggles only_elite (with_layers hs o self) = toggles only_elite self.
Proof. reflexivity. Qed.

Lemma toggled_pass_state (self : BNN) elite g :
  elite_models self = Some elite ->
  toggled
    (with_layers (hidden_after (hidden_layers (toggled self)) g)
       (Layer.after_pass (output_layer (toggled self))
          (stack_rng (map fst (hidden_layers (toggled self))) g))
       (toggled self))
  = with_layers
      (hidden_after (map (on_layer (Layer.set_elite elite)) (hidden_layers self)) g)
      (Layer.after_pass (Layer.set_elite elite (output_layer self))
         (stack_rng (map fst (map (on_layer (Layer.set_elite elite)) (hidden_layers self))) g))
      (with_layers (map (on_layer (Layer.set_elite elite)) (hidden_layers self))
                   (Layer.set_elite elite (output_layer self)) self).
Proof.
  intros Hel. unfold toggled. simpl. rewrite Hel. simpl. rewrite Hel.
  unfold with_layers. simpl. f_equal.
  - apply (toggle_hidden_after elite).
  - rewrite toggle_after_pass.
    rewrite (map_fst_on_layer (toggle_layer elite)), (map_fst_on_layer (Layer.set_elite elite)).
    rewrite (stack_rng_keeps (toggle_layer elite)) by apply keeps_weights_toggle.
    rewrite (stack_rng_keeps (Layer.set_elite elite)) by apply keeps_weights_set_elite.
    done.
Qed.

Lemma linear_layers_marked (self : BNN) elite :
  linear_layers (with_layers (map (on_layer (Layer.set_elite elite)) (hidden_layers self))
                   (Layer.set_elite elite (output_layer self)) self)
  = map (Layer.set_elite elite) (linear_layers self).
Proof. unfold linear_layers. simpl. by rewrite map_app, !map_map. Qed.

Lemma map_layer_event_keeps f ls :
  keeps_weights f -> map layer_event (map f ls) = map layer_event ls.
Proof. intros Hf. rewrite map_map. apply map_ext. intros l. by apply layer_event_keeps. Qed.

(** The default forward pass of a well-formed model on a batch with rows of
    [in_size] entries: slot [k] of the result holds, for every row of the
    batch of slot [k], the prediction of the k-th active member. *)
Lemma default_forward_run x only_elite s :
  well_formed (net s) = true ->
  (toggles only_elite (net s) = true -> valid_elite (net s) = true) ->
  Layer.rows_ok (in_size (net s)) x = true ->
  length (per_member (length (active_members only_elite (net s))) x)
  = length (active_members only_elite (net s)) ->
  _default_forward x only_elite s
  = (Ok (zip_with (fun e m => map (member_row (net s) (rng s) e) m)
           (active_members only_elite (net s))
           (per_member (length (active_members only_elite (net s))) x)),
     after_default_forward only_elite s)
  /\ rows_of (out_size (net s))
       (zip_with (fun e m => map (member_row (net s) (rng s) e) m)
          (active_members only_elite (net s))
          (per_member (length (active_members only_elite (net s))) x)).
Proof.
  intros Hwf Hvalid Hrows Hlen.
  destruct (well_formed_layers _ Hwf) as (HE & Hlayers & Hne & Hch).
  rewrite default_forward_unfold, maybe_toggle_run.
  unfold after_default_forward. rewrite mark_elite_toggles.
  rewrite toggles_active in *.
  destruct (toggles only_elite (net s)) eqn:Htog.
  - (* the restriction is switched on, then off *)
    destruct (elite_models (net s)) as [elite|] eqn:Hel;
      [|unfold toggles in Htog; by rewrite Hel in Htog].
    simpl in Hlen |- *.
    destruct (valid_elite_range _ _ (Hvalid eq_refl) Hel) as (_ & Hin & _).
    set (s1 := {| net := toggled (net s); rng := rng s; trace := trace s |}).
    destruct (layer_stack_run x s1 elite) as [Hrun Hout]; simpl; try done.
    + rewrite (linear_layers_toggled _ _ Hel). apply Forall_fmap.
      eapply Forall_impl; [exact Hlayers|]. intros l [Hu Hoff]. simpl.
      apply selects_elite; [done|]. by rewrite Hu.
    + rewrite (linear_layers_toggled _ _ Hel), chained_keeps by apply keeps_weights_toggle.
      unfold toggled. rewrite Hel. done.
    + unfold toggled. rewrite Hel. simpl. by destruct (hidden_layers (net s)).
    + unfold toggled. by rewrite Hel.
    + rewrite Hrun. clear Hrun. rewrite maybe_toggle_run. simpl.
      rewrite toggles_with_layers, toggles_toggled, Htog.
      rewrite (toggled_pass_state _ _ _ Hel), zip_member_row_toggled.
      rewrite (linear_layers_toggled _ _ Hel), linear_layers_marked.
      rewrite !(stack_rng_keeps (toggle_layer elite)) by apply keeps_weights_toggle.
      rewrite !(stack_rng_keeps (Layer.set_elite elite)) by apply keeps_weights_set_elite.
      rewrite !(map_layer_event_keeps (toggle_layer elite)) by apply keeps_weights_toggle.
      rewrite !(map_layer_event_keeps (Layer.set_elite elite)) by apply keeps_weights_set_elite.
      split; [done|].
      subst s1. simpl in Hout. rewrite zip_member_row_toggled in Hout.
      unfold toggled in Hout. by rewrite Hel in Hout.
  - (* no restriction: every member takes part *)
    rewrite length_seq in Hlen |- *.
    destruct (layer_stack_run x s (seq 0 (num_members (net s)))) as [Hrun Hout];
      rewrite ?length_seq; try done.
    + eapply Forall_impl; [exact Hlayers|]. intros l [Hu Hoff]. simpl.
      rewrite <- Hu. by apply selects_all.
    + rewrite length_seq in Hrun, Hout. rewrite Hrun. clear Hrun.
      rewrite maybe_toggle_run. simpl. rewrite toggles_with_layers, Htog.
      done.
Qed.

End DefaultForward.

(** *** The sum-of-squares term *)

Lemma each_Forall {A C} (f : A -> Outcome C) (g : A -> C) (a : list A) :
  Forall (fun x => f x = Ok (g x)) a -> Torch.each f a = Ok (map g a).
Proof. induction 1 as [|x a Hx _ IH]; simpl; [done|]. by rewrite Hx, IH. Qed.

Lemma pairwise_Forall2 {A B C} (f : A -> B -> Outcome C) (g : A -> B -> C)
    (a : list A) (b : list B) :
  Forall2 (fun x y => f x y = Ok (g x y)) a b ->
  Torch.pairwise f a b = Ok (zip_with g a b).
Proof. induction 1 as [|x y a b Hxy _ IH]; simpl; [done|]. by rewrite Hxy, IH. Qed.

Lemma broadcast_Forall2 {A B C} (f : A -> B -> Outcome C) (g : A -> B -> C)
    (a : list A) (b : list B) :
  Forall2 (fun x y => f x y = Ok (g x y)) a b ->
  Torch.broadcast f a b = Ok (zip_with g a b).
Proof.
  intros Hab. unfold Torch.broadcast.
  destruct Hab as [|x y a b Hxy Hab]; [done|].
  destruct Hab as [|x' y' a b Hxy' Hab].
  - simpl. by rewrite Hxy.
  - apply (pairwise_Forall2 f g (x :: x' :: a) (y :: y' :: b)).
    by repeat constructor.
Qed.

Lemma broadcast_right_Forall {A B C} (f : A -> B -> Outcome C) (g : A -> B -> C)
    (a : list A) (y : B) :
  Forall (fun x => f x y = Ok (g x y)) a ->
  Torch.broadcast f a [y] = Ok (zip_with g a (replicate (length a) y)).
Proof.
  intros Ha. rewrite zip_with_replicate_r_eq by done. unfold Torch.broadcast.
  destruct a as [|x [|x' a]]; try done.
  - simpl. rewrite Forall_singleton in Ha. by rewrite Ha.
  - by apply (each_Forall (fun x => f x y) (fun x => g x y)).
Qed.

Lemma broadcast_per_member {A C} (f : A -> Matrix -> Outcome C) (g : A -> Matrix -> C)
    (a : list A) (target : Tensor) :
  Forall2 (fun x y => f x y = Ok (g x y)) a (per_member (length a) target) ->
  Torch.broadcast f a (match target with T2 m => [m] | T3 t => t end)
  = Ok (zip_with g a (per_member (length a) target)).
Proof.
  intros Hab.
  assert (Hrep : forall m, Forall2 (fun x y => f x y = Ok (g x y)) a (replicate (length a) m) ->
                           Forall (fun x => f x m = Ok (g x m)) a).
  { intros m. clear. induction a as [|x a IH]; simpl; intros Hf; [done|].
    apply Forall2_cons in Hf as [Hx Hf]. constructor; [done|]. by apply IH. }
  destruct target as [m|[|m [|m' t]]]; simpl in *.
  - by apply broadcast_right_Forall, Hrep.
  - by apply broadcast_Forall2.
  - by apply broadcast_right_Forall, Hrep.
  - by apply broadcast_Forall2.
Qed.

Lemma squared_error_rows (p t : Matrix) :
  Forall2 (fun (r r' : Vec) => length r = length r') p t ->
  Torch.broadcast (Torch.broadcast Torch.squared_error) p t
  = Ok (zip_with (zip_with square_diff) p t).
Proof.
  intros Hrows. apply broadcast_Forall2.
  eapply Forall2_impl; [exact Hrows|]. intros r r' Hlen. simpl in Hlen.
  apply broadcast_Forall2.
  apply Forall2_same_length_lookup_2; [done|]. by intros i x y _ _.
Qed.

Lemma mse_loss_none_rank3 (pred : list Matrix) (target : Tensor) :
  Forall2 (Forall2 (fun (r r' : Vec) => length r = length r'))
          pred (per_member (length pred) target) ->
  mse_loss_none (T3 pred) target
  = Ok (T3 (squared_errors pred (per_member (length pred) target))).
Proof.
  intros Hshape.
  assert (Hb := broadcast_per_member
                  (Torch.broadcast (Torch.broadcast Torch.squared_error))
                  (zip_with (zip_with square_diff)) pred target).
  unfold mse_loss_none, squared_errors.
  destruct target as [m|t]; cbv beta iota zeta in Hb |- *; rewrite Hb; try done.
  all: eapply Forall2_impl; [exact Hshape|]; intros p t'; apply squared_error_rows.
Qed.

Section SumOfSquares.
Context `{VariationalSampler} `{PermutationSource}.

Lemma Forall2_zip_with_rows (n out : nat) (f : nat -> Vec -> Vec) (ms : list nat)
    (xs ts : list Matrix) :
  (forall e r, length (f e r) = out) ->
  length ms = length xs ->
  Forall2 (fun xm tm => Forall2 (fun (_ r : Vec) => length r = out) xm tm) xs ts ->
  Forall2 (Forall2 (fun (r r' : Vec) => length r = length r'))
          (zip_with (fun e m => map (f e) m) ms xs) ts.
Proof.
  intros Hf Hlen Hshape. revert ms Hlen.
  induction Hshape as [|xm tm xs ts Hrow _ IH]; intros [|e ms] Hlen; simpl in *;
    try done; try by constructor.
  constructor; [|apply IH; lia].
  apply Forall2_fmap_l. eapply Forall2_impl; [exact Hrow|].
  intros r r' Hr. simpl. by rewrite Hf.
Qed.

Lemma member_row_length (self : BNN) g e x :
  length (member_row self g e x) = out_features (output_layer self).
Proof. unfold member_row. apply affine_row_length. Qed.

Lemma well_formed_out (self : BNN) :
  well_formed self = true -> out_features (output_layer self) = out_size self.
Proof.
  intros Hwf. destruct (well_formed_layers _ Hwf) as (_ & _ & _ & Hch).
  unfold linear_layers in Hch. destruct (chained_app _ _ _ _ Hch) as (n' & Hn' & _).
  simpl in Hn'. apply andb_true_iff in Hn' as [_ Hout]. by apply Nat.eqb_eq.
Qed.

Lemma active_members_plain (self : BNN) :
  active_members false self = seq 0 (num_members self).
Proof.
  unfold active_members. destruct (elite_models self); [|done].
  by rewrite andb_false_r.
Qed.

(** A pass without elite restriction: every member predicts its batch. *)
Lemma forward_plain_run x s :
  well_formed (net s) = true ->
  Layer.rows_ok (in_size (net s)) x = true ->
  length (per_member (num_members (net s)) x) = num_members (net s) ->
  forward x None false s = (Ok (T3 (prediction s x)), after_default_forward false s).
Proof.
  intros Hwf Hrows Hlen. unfold forward.
  destruct (default_forward_run x false s Hwf) as [Hrun _];
    rewrite ?toggles_off, ?active_members_plain, ?length_seq; try done.
  rewrite active_members_plain, length_seq in Hrun.
  by rewrite (bind_ok _ _ _ _ _ Hrun).
Qed.

Lemma mse_loss_run x target s :
  well_formed (net s) = true ->
  Layer.rows_ok (in_size (net s)) x = true ->
  target_fits (num_members (net s)) (out_size (net s)) x target ->
  _mse_loss x target s
  = (Ok (sum_of_squares (prediction s x) (per_member (num_members (net s)) target)),
     after_default_forward false s).
Proof.
  intros Hwf Hrows (Hrank & Hlen & Hshape). unfold _mse_loss.
  rewrite Hrank, Nat.eqb_refl. simpl.
  unfold mbind at 1, machine_bind at 1. simpl.
  rewrite (bind_ok _ _ _ _ _ (forward_plain_run x s Hwf Hrows Hlen)).
  assert (Hpl : length (prediction s x) = num_members (net s)).
  { unfold prediction. rewrite length_zip_with_l_eq; rewrite length_seq; done. }
  unfold lift. unfold mbind, machine_bind.
  rewrite mse_loss_none_rank3; rewrite Hpl.
  - reflexivity.
  - unfold prediction.
    apply (Forall2_zip_with_rows (num_members (net s)) (out_size (net s))
             (member_row (net s) (rng s))).
    + intros e r. by rewrite member_row_length, well_formed_out.
    + by rewrite length_seq.
    + done.
Qed.

End SumOfSquares.

(** *** Well-formedness is kept *)

Section Invariants.
Context `{VariationalSampler} `{PermutationSource}.

Lemma chained_shape f n ls out :
  keeps_shape f -> chained n (map f ls) out = chained n ls out.
Proof.
  intros Hf. revert n. induction ls as [|l ls IH]; intros n; simpl; [done|].
  destruct (Hf l) as (_ & _ & -> & ->). by rewrite IH.
Qed.

Lemma well_formed_shape f hs o (self : BNN) :
  keeps_shape f ->
  hs = map (on_layer f) (hidden_layers self) ->
  o = f (output_layer self) ->
  well_formed (with_layers hs o self) = well_formed self.
Proof.
  intros Hf -> ->. unfold well_formed, linear_layers. simpl.
  rewrite length_map, (map_fst_on_layer f).
  rewrite <- (map_app f _ [output_layer self]) at 1.
  rewrite <- (map_app f _ [output_layer self]).
  rewrite chained_shape by done. f_equal. f_equal. f_equal.
  induction (map fst (hidden_layers self) ++ [output_layer self]) as [|l ls IH];
    simpl; [done|].
  destruct (Hf l) as (-> & -> & _). by rewrite IH.
Qed.

Lemma keeps_shape_settings : keeps_shape Layer.settings.
Proof. by intros l. Qed.

Lemma keeps_shape_freeze b : keeps_shape (Layer.with_freeze b).
Proof. by intros l. Qed.

Lemma well_formed_settings (self : BNN) :
  well_formed (net_settings self) = well_formed self.
Proof. exact (well_formed_shape Layer.settings _ _ self keeps_shape_settings eq_refl eq_refl). Qed.

Lemma well_formed_frozen b b' (self : BNN) :
  well_formed (freeze_layers b (with_freeze b' self)) = well_formed self.
Proof.
  exact (well_formed_shape (Layer.with_freeze b) _ _ (with_freeze b' self)
           (keeps_shape_freeze b) eq_refl eq_refl).
Qed.

Lemma settings_sizes (a b : BNN) :
  net_settings a = net_settings b ->
  in_size a = in_size b /\ out_size a = out_size b /\ num_members a = num_members b
  /\ freeze a = freeze b /\ well_formed a = well_formed b
  /\ length (linear_layers a) = length (linear_layers b).
Proof.
  intros Heq. rewrite <- (well_formed_settings a), <- (well_formed_settings b), Heq.
  assert (Hlen : forall c, length (linear_layers c) = length (linear_layers (net_settings c))).
  { intros c. unfold linear_layers, net_settings. simpl.
    by rewrite !length_app, !length_map. }
  rewrite (Hlen a), (Hlen b), Heq.
  repeat split; by inversion Heq.
Qed.

Lemma after_plain_settings s :
  net_settings (net (after_default_forward false s)) = net_settings (net s).
Proof.
  unfold after_default_forward. rewrite mark_elite_toggles, toggles_off.
  unfold net_settings, with_layers. simpl. f_equal.
  - generalize (rng s). induction (hidden_layers (net s)) as [|[l act] hs IH]; intros g;
      simpl; [done|]. by rewrite after_pass_settings, IH.
  - apply after_pass_settings.
Qed.

Lemma after_passes_settings k s :
  net_settings (net (after_passes k s)) = net_settings (net s).
Proof.
  induction k as [|k IH]; [done|]. unfold after_passes in *.
  rewrite Nat.iter_succ. by rewrite after_plain_settings.
Qed.

End Invariants.

(** *** The variational objective *)

Lemma foldl_plus_vsum (l : list Qc) (a : Qc) :
  foldl Qcplus a l = (a + vsum l)%Qc.
Proof.
  revert a. induction l as [|q l IH]; intros a; simpl.
  - by rewrite Qcplus_0_r.
  - rewrite IH. ring.
Qed.

Lemma qnat_1 : qnat 1 = 1%Qc.
Proof. by apply Qc_is_canon. Qed.

Lemma mean_all_scalar (q : Qc) : Torch.mean_all [q] = q.
Proof.
  unfold Torch.mean_all. simpl. rewrite qnat_1, Qcplus_0_r.
  field. apply Q_apart_0_1.
Qed.

Section Elbo.
Context `{VariationalSampler} `{PermutationSource}.

(** The KL aggregation returns one scalar, the sum of the KL terms of the
    units, and leaves the state alone. *)
Lemma nn_kl_divergence_sum s :
  nn_kl_divergence s = (Ok (kl_sum (net s)), s).
Proof.
  unfold nn_kl_divergence, kl_sum, unit_kl. run. f_equal. f_equal.
  rewrite <- (Qcplus_0_l (vsum _)), <- foldl_plus_vsum.
  generalize 0%Qc. induction (linear_layers (net s)) as [|l ls IH]; intros a; simpl; [done|].
  apply IH.
Qed.

Lemma elbo_body_run inputs labels w acc s mse s1 :
  _mse_loss inputs labels s = (Ok mse, s1) ->
  elbo_body inputs labels w acc s = (Ok (acc + mse + kl_sum (net s1) * w)%Qc, s1).
Proof.
  intros Hmse. unfold elbo_body. rewrite (bind_ok _ _ _ _ _ Hmse).
  rewrite (bind_ok _ _ _ _ _ (nn_kl_divergence_sum s1)).
  by rewrite mean_all_scalar.
Qed.

(** C2: in one Monte-Carlo iteration whose forward pass returns, the KL
    aggregation gives the sum of the KL terms of the units as one scalar,
    the mean of that rank-0 tensor is the scalar itself, and the iteration
    adds [complexity_cost_weight] times this sum to the loss. *)
Theorem elbo_iteration_adds_weighted_kl_sum inputs labels w acc s mse s1 k :
  _mse_loss inputs labels s = (Ok mse, s1) ->
  nn_kl_divergence s1 = (Ok (kl_sum (net s1)), s1)
  /\ Torch.mean_all [kl_sum (net s1)] = kl_sum (net s1)
  /\ elbo_body inputs labels w acc s = (Ok (acc + mse + kl_sum (net s1) * w)%Qc, s1)
  /\ elbo_loop (S k) inputs labels w acc s
     = elbo_loop k inputs labels w (acc + mse + kl_sum (net s1) * w)%Qc s1.
Proof.
  intros Hmse.
  pose proof (elbo_body_run inputs labels w acc s mse s1 Hmse) as Hbody.
  repeat split.
  - apply nn_kl_divergence_sum.
  - apply mean_all_scalar.
  - exact Hbody.
  - simpl. by rewrite (bind_ok _ _ _ _ _ Hbody).
Qed.

Lemma elbo_loop_run n inputs labels w : forall acc s,
  well_formed (net s) = true ->
  Layer.rows_ok (in_size (net s)) inputs = true ->
  target_fits (num_members (net s)) (out_size (net s)) inputs labels ->
  elbo_loop n inputs labels w acc s
  = (Ok (acc + vsum (map (elbo_term inputs labels w s) (seq 0 n)))%Qc, after_passes n s).
Proof.
  induction n as [|n IH]; intros acc s Hwf Hrows Hfit.
  - simpl. unfold mret, machine_ret. by rewrite Qcplus_0_r.
  - pose proof (mse_loss_run _ _ _ Hwf Hrows Hfit) as Hmse.
    simpl elbo_loop.
    rewrite (bind_ok _ _ _ _ _ (elbo_body_run inputs labels w acc _ _ _ Hmse)).
    destruct (settings_sizes _ _ (after_plain_settings s))
      as (Hin & Hout & HE & _ & Hwf' & _).
    rewrite IH; rewrite ?Hin, ?Hout, ?HE, ?Hwf'; try done.
    f_equal.
    + f_equal. change (seq 0 (S n)) with (0 :: seq 1 n).
      rewrite <- fmap_S_seq. simpl. rewrite <- list_fmap_compose.
      assert (Hshift : forall k, elbo_term inputs labels w (after_default_forward false s) k
                                 = elbo_term inputs labels w s (S k)).
      { intros k. unfold elbo_term, after_passes.
        rewrite !Nat.iter_succ_r, HE. done. }
      rewrite (list_fmap_ext _ (elbo_term inputs labels w s ∘ S) (seq 0 n))
        by (intros; apply Hshift).
      unfold elbo_term at 2. unfold after_passes at 1 2. simpl. ring.
    + unfold after_passes. by rewrite Nat.iter_succ_r.
Qed.

(** C5: with the freeze flag off, the loss is the arithmetic mean, over the
    100 Monte-Carlo iterations, of the sum of squares of the forward pass of
    the iteration plus the weighted complexity term of its sample; every
    iteration runs its own pass, from the state the previous one left. *)
Theorem unfrozen_loss_is_mean_of_samples model_in target s :
  freeze (net s) = false ->
  well_formed (net s) = true ->
  Layer.rows_ok (in_size (net s)) model_in = true ->
  target_fits (num_members (net s)) (out_size (net s)) model_in target ->
  loss model_in target s
  = (Ok (arithmetic_mean (map (elbo_term model_in target 1%Qc s) (seq 0 100)), empty_meta),
     after_passes 100 s)
  /\ length (map (elbo_term model_in target 1%Qc s) (seq 0 100)) = 100.
Proof.
  intros Hfreeze Hwf Hrows Hfit. split; [|by rewrite length_map, length_seq].
  assert (Hs : sample_elbo model_in target 100 1%Qc s
               = (Ok (arithmetic_mean (map (elbo_term model_in target 1%Qc s) (seq 0 100))),
                  after_passes 100 s)).
  { unfold sample_elbo.
    rewrite (bind_ok _ _ _ _ _ (elbo_loop_run 100 _ _ _ _ _ Hwf Hrows Hfit)).
    change (100 =? 0) with false. cbv iota.
    unfold arithmetic_mean. by rewrite length_map, length_seq, Qcplus_0_l. }
  unfold loss. rewrite (bind_ok get_self _ s s (net s) eq_refl), Hfreeze.
  by rewrite (bind_ok _ _ _ _ _ Hs).
Qed.

End Elbo.

Lemma small_target_fits :
  target_fits 2 1 small_batch small_target.
Proof. repeat split; repeat constructor. Qed.

Lemma elbo_iteration_adds_weighted_kl_sum_witness :
  let s := start (small_net None false) in
  let run := @_mse_loss example_sampler example_permutations small_batch small_target s in
  @elbo_body example_sampler example_permutations small_batch small_target 1%Qc 0%Qc s
  = (Ok (0 + value_of 0 run.1 + kl_sum (net run.2) * 1)%Qc, run.2).
Proof.
  intros s run.
  refine (proj1 (proj2 (proj2
    (@elbo_iteration_adds_weighted_kl_sum example_sampler example_permutations
       small_batch small_target 1%Qc 0%Qc s (value_of 0%Qc run.1) run.2 0 _)))).
  vm_compute. reflexivity.
Defined.

(** C2, as stated, fails: with two units whose KL terms are 2 each, the
    iteration adds their sum 4 times the weight, not their mean 2 times the
    weight. *)
Lemma elbo_iteration_does_not_add_the_mean :
  let s := start (small_net None false) in
  let run := @_mse_loss example_sampler example_permutations small_batch small_target s in
  unit_kl (net run.2) = [qz 2; qz 2]
  /\ kl_mean_over_units (net run.2) = qz 2
  /\ @elbo_body example_sampler example_permutations small_batch small_target 1%Qc 0%Qc s
     = (Ok (0 + value_of 0 run.1 + qz 4 * 1)%Qc, run.2)
  /\ @elbo_body example_sampler example_permutations small_batch small_target 1%Qc 0%Qc s
     <> (Ok (0 + value_of 0 run.1 + kl_mean_over_units (net run.2) * 1)%Qc, run.2).
Proof.
  intros s run.
  assert (Hkl : unit_kl (net run.2) = [qz 2; qz 2]).
  { apply (bool_decide_eq_true_1 (unit_kl (net run.2) = [qz 2; qz 2])).
    vm_compute. reflexivity. }
  assert (Hmean : kl_mean_over_units (net run.2) = qz 2).
  { unfold kl_mean_over_units. rewrite Hkl. apply Qc_is_canon. vm_compute. reflexivity. }
  assert (Hsum : kl_sum (net run.2) = qz 4).
  { unfold kl_sum. rewrite Hkl. apply Qc_is_canon. vm_compute. reflexivity. }
  assert (Hbody := @elbo_body_run example_sampler example_permutations
                     small_batch small_target 1%Qc 0%Qc s (value_of 0%Qc run.1) run.2
                     ltac:(vm_compute; reflexivity)).
  rewrite Hsum in Hbody.
  split; [exact Hkl|]. split; [exact Hmean|]. split; [exact Hbody|].
  rewrite Hbody, Hmean. clear Hbody Hkl Hmean Hsum.
  set (m := value_of 0%Qc run.1). clearbody m.
  set (s1 := run.2). clearbody s1. clear run.
  intros Heq.
  assert (Heq' : Ok (0 + m + qz 4 * 1)%Qc = Ok (0 + m + qz 2 * 1)%Qc)
    by exact (f_equal fst Heq).
  assert (Hsums : (0 + m + qz 4 * 1)%Qc = (0 + m + qz 2 * 1)%Qc) by congruence.
  assert (Hc : qz 4 = qz 2).
  { transitivity ((0 + m + qz 4 * 1) - m)%Qc; [ring|]. rewrite Hsums. ring. }
  apply (f_equal this) in Hc. vm_compute in Hc. discriminate Hc.
Qed.

Lemma unfrozen_loss_is_mean_of_samples_witness :
  let s := start (small_net None false) in
  @loss example_sampler example_permutations small_batch small_target s
  = (Ok (arithmetic_mean
           (map (@elbo_term example_sampler small_batch small_target 1%Qc s) (seq 0 100)),
         empty_meta),
     @after_passes example_sampler 100 s).
Proof.
  intros s.
  refine (proj1 (@unfrozen_loss_is_mean_of_samples example_sampler example_permutations
                   small_batch small_target s _ _ _ _)).
  - reflexivity.
  - vm_compute. reflexivity.
  - vm_compute. reflexivity.
  - exact small_target_fits.
Defined.

(** *** The frozen objective *)

Lemma zip_with_ext_Forall {A B C} (f g : A -> B -> C) (a : list A) (b : list B) :
  Forall (fun x => forall y, f x y = g x y) a -> zip_with f a b = zip_with g a b.
Proof.
  intros Ha. revert b. induction Ha as [|x a Hx _ IH]; intros [|y b]; simpl; try done.
  by rewrite Hx, IH.
Qed.

Section Frozen.
Context `{VariationalSampler} `{PermutationSource}.

Lemma linear_layers_frozen b (self : BNN) :
  linear_layers (freeze_layers b self) = map (Layer.with_freeze b) (linear_layers self).
Proof. unfold linear_layers, freeze_layers. simpl. by rewrite map_app, !map_map. Qed.

Lemma stack_rng_frozen ls g :
  Forall (fun l => layer_freeze l = true) ls -> stack_rng ls g = g.
Proof.
  induction 1 as [|l ls Hl _ IH]; simpl; [done|].
  unfold Layer.rng_after. by rewrite Hl.
Qed.

Lemma layer_event_frozen ls :
  Forall (fun l => layer_freeze l = true) ls ->
  map layer_event ls = replicate (length ls) (LayerCall false).
Proof.
  induction 1 as [|l ls Hl _ IH]; simpl; [done|].
  unfold layer_event at 1. by rewrite Hl, IH.
Qed.

Lemma frozen_hidden_row_run hs g e x n :
  Forall (fun layer => length (units layer.1) = n) hs ->
  e < n ->
  hidden_row (map (on_layer (Layer.with_freeze true)) hs) g e x = frozen_hidden_row hs e x.
Proof.
  intros Hhs He. revert g x.
  induction Hhs as [|[l act] hs Hl _ IH]; intros g x; simpl; [done|].
  simpl in Hl. unfold Layer.pass_weights at 1. simpl.
  rewrite (list_lookup_total_fmap post_mu) by lia. apply IH.
Qed.

Lemma frozen_member_row (self : BNN) g e x :
  well_formed self = true ->
  e < num_members self ->
  member_row (freeze_layers true (with_freeze true self)) g e x = frozen_row self e x.
Proof.
  intros Hwf He. destruct (well_formed_layers _ Hwf) as (_ & Hlayers & _ & _).
  unfold linear_layers in Hlayers. apply Forall_app in Hlayers as [Hhid Hout].
  rewrite Forall_singleton in Hout. destruct Hout as [Hout _].
  unfold member_row, frozen_row. simpl.
  rewrite (frozen_hidden_row_run _ _ _ _ (num_members self)); [|
    apply Forall_fmap in Hhid; eapply Forall_impl; [exact Hhid|]; by intros l [? _] | done].
  unfold Layer.pass_weights. simpl.
  by rewrite (list_lookup_total_fmap post_mu) by lia.
Qed.

Lemma frozen_prediction_run s x :
  well_formed (net s) = true ->
  prediction
    {| net := freeze_layers true (with_freeze true (net s)); rng := rng s; trace := trace s |} x
  = frozen_prediction (net s) x.
Proof.
  intros Hwf. unfold prediction, frozen_prediction. simpl.
  apply zip_with_ext_Forall. apply Forall_forall. intros e He m.
  apply list_elem_of_In, in_seq in He.
  apply list_fmap_ext. intros i r _. apply frozen_member_row; [done|lia].
Qed.

Lemma freeze_model_run s :
  freeze_model s
  = (Ok tt, {| net := freeze_layers true (with_freeze true (net s));
               rng := rng s; trace := trace s |}).
Proof. reflexivity. Qed.

Lemma all_frozen (self : BNN) :
  Forall (fun l => layer_freeze l = true) (linear_layers (freeze_layers true self)).
Proof. rewrite linear_layers_frozen. apply Forall_fmap. by apply Forall_forall. Qed.

(** C4: with the freeze flag set, [loss] returns the sum of the squared
    errors between the forward output without propagation and the target,
    summed over the output and batch axes and then over the ensemble axis.
    The forward output is that of the network with every weight at its
    posterior mean: one pass, no sample drawn from the random generator. *)
Theorem frozen_loss_is_sum_of_squares model_in target s :
  freeze (net s) = true ->
  well_formed (net s) = true ->
  Layer.rows_ok (in_size (net s)) model_in = true ->
  target_fits (num_members (net s)) (out_size (net s)) model_in target ->
  exists s',
    loss model_in target s
    = (Ok (sum_of_squares (frozen_prediction (net s) model_in)
             (per_member (num_members (net s)) target), empty_meta), s')
    /\ forward model_in None false (freeze_model s).2
       = (Ok (T3 (frozen_prediction (net s) model_in)), s')
    /\ rng s' = rng s
    /\ trace s' = trace s ++ replicate (length (linear_layers (net s))) (LayerCall false).
Proof.
  intros Hfreeze Hwf Hrows Hfit.
  set (s0 := {| net := freeze_layers true (with_freeze true (net s));
                rng := rng s; trace := trace s |}).
  assert (Hwf0 : well_formed (net s0) = true) by (simpl; by rewrite well_formed_frozen).
  exists (after_default_forward false s0).
  split; [|split; [|split]].
  - unfold loss. rewrite (bind_ok get_self _ s s (net s) eq_refl), Hfreeze.
    rewrite (bind_ok _ _ _ _ _ (freeze_model_run s)). fold s0.
    rewrite (bind_ok _ _ _ _ _ (mse_loss_run model_in target s0 Hwf0 Hrows Hfit)).
    subst s0. rewrite frozen_prediction_run by done. reflexivity.
  - change ((freeze_model s).2) with s0.
    rewrite (forward_plain_run model_in s0 Hwf0 Hrows (proj1 (proj2 Hfit))).
    subst s0. by rewrite frozen_prediction_run.
  - unfold after_default_forward. rewrite mark_elite_toggles, toggles_off. simpl.
    apply stack_rng_frozen. apply (all_frozen (with_freeze true (net s))).
  - unfold after_default_forward. rewrite mark_elite_toggles, toggles_off. simpl.
    rewrite (layer_event_frozen _ (all_frozen (with_freeze true (net s)))).
    rewrite linear_layers_frozen, length_map. done.
Qed.

(** C10: a frozen [loss] call runs [freeze_model] before the sum of
    squares, so whatever the call returns or raises, the ensemble and every
    linear layer end with their freeze flag set, also those layers whose flag
    was off on entry. *)
Theorem frozen_loss_refreezes model_in target s :
  freeze (net s) = true ->
  let s' := (loss model_in target s).2 in
  freeze (net s') = true
  /\ Forall (fun l => layer_freeze l = true) (linear_layers (net s'))
  /\ (exists r, _mse_loss model_in target (freeze_model s).2 = (r, s')).
Proof.
  intros Hfreeze s'.
  set (s0 := {| net := freeze_layers true (with_freeze true (net s));
                rng := rng s; trace := trace s |}).
  assert (Hloss : exists r, _mse_loss model_in target s0 = (r, s')).
  { subst s'. unfold loss. rewrite (bind_ok get_self _ s s (net s) eq_refl), Hfreeze.
    rewrite (bind_ok _ _ _ _ _ (freeze_model_run s)). fold s0.
    destruct (_mse_loss model_in target s0) as [[v|e] s1] eqn:Hmse.
    - rewrite (bind_ok _ _ _ _ _ Hmse). by exists (Ok v).
    - rewrite (bind_raise _ _ _ _ _ Hmse). by exists (Raise e). }
  assert (Hset : net_settings (net s') = net_settings (net s0)).
  { destruct Hloss as [r Hmse]. clear -Hmse. revert Hmse. unfold _mse_loss.
    destruct (ndim model_in =? ndim target); simpl.
    - unfold mbind at 1, machine_bind at 1. simpl.
      unfold mbind at 1, machine_bind at 1. unfold forward.
      unfold mbind at 1, machine_bind at 1.
      destruct (_default_forward model_in false s0) as [[o|e] s1] eqn:Hfw.
      + pose proof (default_forward_plain_settings _ _ _ _ Hfw) as Hs1.
        unfold mret, machine_ret, lift, mbind, machine_bind.
        destruct (mse_loss_none (T3 o) target); intros [= _ <-]; done.
      + pose proof (default_forward_plain_settings _ _ _ _ Hfw) as Hs1.
        intros [= _ <-]; done.
    - unfold mbind, machine_bind, raise. by intros [= _ <-]. }
  destruct (settings_fields _ _ Hset) as (_ & _ & Hfr & _ & _ & Hflags).
  split; [|split].
  - by rewrite Hfr.
  - pose proof (all_frozen (with_freeze true (net s))) as Hall.
    apply (Forall_fmap layer_freeze (fun b => b = true)) in Hall.
    assert (Hgoal : Forall (fun b => b = true) (freeze_flags (net s'))).
    { rewrite Hflags. exact Hall. }
    apply (Forall_fmap layer_freeze (fun b => b = true)). exact Hgoal.
  - exact Hloss.
Qed.

End Frozen.

Lemma frozen_loss_is_sum_of_squares_witness :
  let s := start (small_net None true) in
  exists s',
    @loss example_sampler example_permutations small_batch small_target s
    = (Ok (sum_of_squares (frozen_prediction (net s) small_batch)
             (per_member (num_members (net s)) small_target), empty_meta), s')
    /\ @forward example_sampler example_permutations small_batch None false
         (freeze_model s).2
       = (Ok (T3 (frozen_prediction (net s) small_batch)), s')
    /\ rng s' = rng s
    /\ trace s' = trace s ++ replicate (length (linear_layers (net s))) (LayerCall false).
Proof.
  intros s.
  apply (@frozen_loss_is_sum_of_squares example_sampler example_permutations
           small_batch small_target s).
  - reflexivity.
  - vm_compute. reflexivity.
  - vm_compute. reflexivity.
  - exact small_target_fits.
Defined.

Lemma frozen_loss_refreezes_witness :
  let s := start thawed_layers_net in
  freeze_flags (net s) = [false; false]
  /\ Forall (fun l => layer_freeze l = true)
       (linear_layers
          (net (@loss example_sampler example_permutations small_batch small_target s).2)).
Proof.
  intros s. split; [reflexivity|].
  apply (@frozen_loss_refreezes example_sampler example_permutations
           small_batch small_target s).
  reflexivity.
Defined.

(** *** Batches that do not divide among the models *)

Section Rejection.
Context `{VariationalSampler} `{PermutationSource}.

(** C6: with a propagation method set and a rank-2 batch whose size is not
    a multiple of the active model count, [forward] raises before any layer
    runs and before any tensor is made: the model, the random generator and
    the trace of layer calls are those of entry.  The error is the
    [ValueError] of the batch-size check; for an elite list of length zero
    the remainder itself raises [ZeroDivisionError], at the same point. *)
Theorem forward_rejects_uneven_batch (method : string) (m : list (list Qc))
    (propagation_indices : option (list nat)) (s : Machine) :
  propagation_method (net s) = Some method ->
  ~ Nat.divide (model_len (net s)) (length m) ->
  exists e,
    forward (T2 m) propagation_indices true s = (Raise e, s)
    /\ (model_len (net s) <> 0 ->
          e = ValueError (BatchNotMultiple (length m) (model_len (net s))))
    /\ (model_len (net s) = 0 -> e = ZeroDivisionError).
Proof.
  intros Hmethod Hdiv. unfold forward, _forward_ensemble.
  rewrite (bind_ok get_self _ s s (net s) eq_refl), Hmethod.
  unfold py_mod. destruct (model_len (net s) =? 0) eqn:Hzero.
  - exists ZeroDivisionError. apply Nat.eqb_eq in Hzero. by repeat split.
  - apply Nat.eqb_neq in Hzero.
    assert (Hrem : length m mod model_len (net s) <> 0).
    { intros Hrem. apply Hdiv. by apply Nat.Lcm0.mod_divide. }
    apply Nat.eqb_neq in Hrem.
    exists (ValueError (BatchNotMultiple (length m) (model_len (net s)))).
    split; [|by split].
    unfold lift, mbind, machine_bind. by rewrite Hrem.
Qed.

End Rejection.

Lemma forward_rejects_uneven_batch_witness :
  let s := start (small_net (Some "random_model"%string) false) in
  exists e,
    @forward example_sampler example_permutations
      (T2 [[qz 1; qz 2]; [qz 0; qz 1]; [qz 3; qz 1]]) None true s = (Raise e, s)
    /\ (model_len (net s) <> 0 -> e = ValueError (BatchNotMultiple 3 (model_len (net s))))
    /\ (model_len (net s) = 0 -> e = ZeroDivisionError).
Proof.
  intros s.
  apply (@forward_rejects_uneven_batch example_sampler example_permutations
           "random_model"%string [[qz 1; qz 2]; [qz 0; qz 1]; [qz 3; qz 1]] None s).
  - reflexivity.
  - intros [k Hk]. change (3 = k * 2) in Hk. lia.
Defined.

(** *** The evaluation score *)

Section EvalScore.
Context `{VariationalSampler} `{PermutationSource}.

Lemma Forall2_replicate_both {A B} (P : A -> B -> Prop) n x y :
  P x y -> Forall2 P (replicate n x) (replicate n y).
Proof. intros Hxy. induction n; simpl; by constructor. Qed.

Lemma prediction_rank2 s (x : list (list Qc)) :
  prediction s (T2 x)
  = map (fun e => map (member_row (net s) (rng s) e) x) (seq 0 (num_members (net s))).
Proof.
  unfold prediction. simpl.
  apply zip_with_replicate_r_eq. by rewrite length_seq.
Qed.

(** C8: [eval_score] raises [AssertionError], with the state untouched, as
    soon as its input or its target is not of rank 2; for a rank-2 batch and
    a rank-2 target with one row per example it returns, unreduced, the
    squared error of every entry between the forward output without
    propagation (one prediction per member and example) and the target
    repeated for every member. *)
Theorem eval_score_rank_two model_in target s :
  (ndim model_in <> 2 \/ ndim target <> 2 ->
     eval_score model_in target s = (Raise AssertionError, s))
  /\ (forall x t,
        model_in = T2 x -> target = T2 t ->
        well_formed (net s) = true ->
        Layer.rows_ok (in_size (net s)) (T2 x) = true ->
        Forall2 (fun (_ r : list Qc) => length r = out_size (net s)) x t ->
        eval_score model_in target s
        = (Ok (T3 (squared_errors
                     (map (fun e => map (member_row (net s) (rng s) e) x)
                          (seq 0 (num_members (net s))))
                     (replicate (num_members (net s)) t)),
               empty_meta),
           after_default_forward false s)
        /\ forward model_in None false s
           = (Ok (T3 (map (fun e => map (member_row (net s) (rng s) e) x)
                          (seq 0 (num_members (net s))))),
              after_default_forward false s)).
Proof.
  split.
  - intros Hrank. unfold eval_score.
    assert (Hcheck : (ndim model_in =? 2) && (ndim target =? 2) = false).
    { apply andb_false_iff. destruct Hrank as [Hr|Hr]; [left|right]; by apply Nat.eqb_neq. }
    rewrite Hcheck. reflexivity.
  - intros x t -> -> Hwf Hrows Hshape.
    assert (Hlen : length (per_member (num_members (net s)) (T2 x)) = num_members (net s))
      by apply length_replicate.
    pose proof (forward_plain_run (T2 x) s Hwf Hrows Hlen) as Hfw.
    rewrite prediction_rank2 in Hfw. split; [|exact Hfw].
    unfold eval_score.
    assert (Hassert : py_assert ((ndim (T2 x) =? 2) && (ndim (T2 t) =? 2)) s = (Ok tt, s))
      by reflexivity.
    rewrite (bind_ok _ _ _ _ _ Hassert).
    rewrite (bind_ok _ _ _ _ _ Hfw).
    rewrite (bind_ok get_self _ _ _ _ eq_refl).
    destruct (settings_sizes _ _ (after_plain_settings s)) as (_ & _ & HE & _).
    rewrite HE. simpl repeat_n_1_1. unfold Torch.repeat3.
    set (pred := map _ (seq 0 (num_members (net s)))).
    assert (Hpl : length pred = num_members (net s)).
    { subst pred. by rewrite length_map, length_seq. }
    assert (Hper : per_member (length pred) (T3 (replicate (num_members (net s)) t))
                   = replicate (num_members (net s)) t).
    { apply per_member_T3. by rewrite length_replicate. }
    unfold lift. unfold mbind, machine_bind.
    rewrite mse_loss_none_rank3; rewrite Hper; [done|].
    subst pred. rewrite <- prediction_rank2. unfold prediction.
    apply (Forall2_zip_with_rows (num_members (net s)) (out_size (net s))
             (member_row (net s) (rng s))).
    + intros e r. by rewrite member_row_length, well_formed_out.
    + by rewrite length_seq.
    + simpl. by apply Forall2_replicate_both.
Qed.

End EvalScore.

Lemma eval_score_rank_two_witness :
  let s := start (small_net None false) in
  @eval_score example_sampler example_permutations (T3 [[[qz 1; qz 2]]]) small_target s
  = (Raise AssertionError, s)
  /\ @eval_score example_sampler example_permutations small_batch small_target s
     = (Ok (T3 (squared_errors
                  (map (fun e => map (@member_row example_sampler (net s) (rng s) e)
                                     [[qz 1; qz 2]; [qz 0; qz 1]])
                       (seq 0 (num_members (net s))))
                  (replicate (num_members (net s)) [[qz 1]; [qz 0]])),
            empty_meta),
        @after_default_forward example_sampler false s).
Proof.
  intros s. split.
  - apply (proj1 (@eval_score_rank_two example_sampler example_permutations
                    (T3 [[[qz 1; qz 2]]]) small_target s)).
    left. simpl. lia.
  - apply (proj2 (@eval_score_rank_two example_sampler example_permutations
                    small_batch small_target s) _ _ eq_refl eq_refl).
    + vm_compute. reflexivity.
    + vm_compute. reflexivity.
    + repeat constructor.
Defined.

(** *** Propagation by expectation *)

Section Expectation.
Context `{VariationalSampler} `{PermutationSource}.

Lemma active_members_length (self : BNN) :
  well_formed self = true -> valid_elite self = true ->
  length (active_members true self) = model_len self /\ model_len self <> 0.
Proof.
  intros Hwf Hvalid. destruct (well_formed_layers _ Hwf) as (HE & _).
  unfold active_members, model_len, len.
  destruct (elite_models self) as [elite|] eqn:Hel.
  - destruct (valid_elite_range _ _ Hvalid Hel) as (Hne & Hin & Hnd).
    assert (Hpos : length elite <> 0) by (by destruct elite).
    rewrite andb_true_r. destruct (1 <? num_members self) eqn:Hone; [done|].
    apply Nat.ltb_ge in Hone. rewrite length_seq. split; [|done].
    assert (Hzero : Forall (fun i => i = 0) elite).
    { eapply Forall_impl; [exact Hin|]. intros i Hi. simpl in Hi. lia. }
    destruct elite as [|a [|b rest]]; [done|simpl; lia|].
    apply Forall_cons in Hzero as [-> Hzero]. apply Forall_cons in Hzero as [-> _].
    apply NoDup_cons in Hnd as [Hnotin _]. exfalso. apply Hnotin. by left.
  - rewrite length_seq. split; [done|lia].
Qed.

Lemma mean_dim0_lookup (f : nat -> list (list Qc)) (ms : list nat) (e0 : nat) (rest : list nat)
    (out : list (list Qc)) :
  ms = e0 :: rest ->
  Torch.mean_dim0 (map f ms) = Ok out ->
  length out = length (f e0)
  /\ forall j r0, f e0 !! j = Some r0 ->
       exists r, out !! j = Some r /\ length r = length r0
                 /\ forall d, d < length r0 ->
                      r !! d = Some (vsum (map (fun e => entry (f e) j d) ms)
                                     / qnat (length ms))%Qc.
Proof.
  intros -> Hmean. simpl in Hmean. injection Hmean as <-. split.
  - by rewrite length_imap.
  - intros j r0 Hj. eexists. split; [|split].
    + rewrite list_lookup_imap, Hj. reflexivity.
    + by rewrite length_imap.
    + intros d Hd. rewrite list_lookup_imap.
      destruct (lookup_lt_is_Some_2 r0 d Hd) as [q Hq]. rewrite Hq. simpl.
      by rewrite map_map, length_map.
Qed.

(** C7: with propagation by expectation, a rank-2 batch whose size is a
    multiple of the active model count goes whole to every active member, the
    forward pass runs with the elite restriction, and the result is the mean
    over the members: one row of [out_size] entries for every row of the
    batch. *)
Theorem expectation_averages_all_members (m : list (list Qc))
    (propagation_indices : option (list nat)) (s : Machine) :
  propagation_method (net s) = Some "expectation"%string ->
  well_formed (net s) = true ->
  valid_elite (net s) = true ->
  Layer.rows_ok (in_size (net s)) (T2 m) = true ->
  Nat.divide (model_len (net s)) (length m) ->
  exists out,
    forward (T2 m) propagation_indices true s = (Ok (T2 out), after_default_forward true s)
    /\ length (active_members true (net s)) = model_len (net s)
    /\ _default_forward (T3 [m]) true s
       = (Ok (map (fun e => map (member_row (net s) (rng s) e) m)
                  (active_members true (net s))),
          after_default_forward true s)
    /\ length out = length m
    /\ Forall (fun r => length r = out_size (net s)) out
    /\ (forall j d row,
          m !! j = Some row -> d < out_size (net s) ->
          (out !!! j) !!! d
          = (vsum (map (fun e => member_row (net s) (rng s) e row !!! d)
                       (active_members true (net s)))
             / qnat (length (active_members true (net s))))%Qc).
Proof.
  intros Hmethod Hwf Hvalid Hrows Hdiv.
  destruct (active_members_length _ Hwf Hvalid) as [Hactive Hpos].
  set (ms := active_members true (net s)) in *.
  assert (Hrows3 : Layer.rows_ok (in_size (net s)) (T3 [m]) = true).
  { simpl in *. by rewrite Hrows. }
  destruct (default_forward_run (T3 [m]) true s Hwf (fun _ => Hvalid) Hrows3) as [Hrun Hout].
  { simpl. by rewrite length_replicate. }
  fold ms in Hrun, Hout. simpl per_member in Hrun, Hout.
  rewrite zip_with_replicate_r_eq in Hrun, Hout by done.
  change (_default_forward (T3 [m]) true s
          = (Ok (map (fun e => map (member_row (net s) (rng s) e) m) ms),
             after_default_forward true s)) in Hrun.
  set (pred := map (fun e => map (member_row (net s) (rng s) e) m) ms) in *.
  destruct ms as [|e0 rest] eqn:Hms; [simpl in Hactive; congruence|].
  destruct (Torch.mean_dim0 pred) as [out|e] eqn:Hmean; [|done].
  destruct (mean_dim0_lookup (fun e => map (member_row (net s) (rng s) e) m)
              (e0 :: rest) e0 rest out eq_refl Hmean) as [Hlen Hentries].
  rewrite length_map in Hlen.
  exists out. split; [|split; [|split; [|split; [|split]]]]; try done.
  - unfold forward, _forward_ensemble.
    rewrite (bind_ok get_self _ s s (net s) eq_refl), Hmethod.
    unfold py_mod. apply Nat.eqb_neq in Hpos. rewrite Hpos.
    apply Nat.Lcm0.mod_divide in Hdiv. rewrite Hdiv.
    rewrite (bind_ok (lift (Ok 0)) _ s s 0 eq_refl).
    change (negb (0 =? 0)) with false. cbv beta iota zeta.
    change (String.eqb "expectation" "random_model") with false.
    change (String.eqb "expectation" "fixed_model") with false.
    change (String.eqb "expectation" "expectation") with true. cbv beta iota zeta.
    rewrite (bind_ok _ _ _ _ _ Hrun).
    unfold lift, mbind, machine_bind. by rewrite Hmean.
  - apply Forall_lookup. intros j r Hr.
    destruct (lookup_lt_is_Some_2 m j) as [row Hrow].
    { rewrite <- Hlen. by apply lookup_lt_Some in Hr. }
    destruct (Hentries j (member_row (net s) (rng s) e0 row)) as (r' & Hr' & Hlr & _).
    { by rewrite list_lookup_fmap, Hrow. }
    rewrite Hr in Hr'. injection Hr' as <-.
    by rewrite Hlr, member_row_length, well_formed_out.
  - intros j d row Hrow Hd.
    destruct (Hentries j (member_row (net s) (rng s) e0 row)) as (r' & Hr' & Hlr & Hval).
    { by rewrite list_lookup_fmap, Hrow. }
    rewrite (list_lookup_total_correct _ _ _ Hr').
    rewrite member_row_length, well_formed_out in Hval by done.
    rewrite (list_lookup_total_correct _ _ _ (Hval d Hd)).
    f_equal. f_equal. apply map_ext. intros e. unfold entry.
    rewrite (list_lookup_total_fmap (member_row (net s) (rng s) e))
      by (by apply lookup_lt_Some in Hrow).
    by rewrite (list_lookup_total_correct _ _ _ Hrow).
Qed.

End Expectation.

Lemma expectation_averages_all_members_witness :
  exists out,
    @forward example_sampler example_permutations (T2 smoke_batch) None true (start smoke_net)
    = (Ok (T2 out), @after_default_forward example_sampler true (start smoke_net))
    /\ length out = 3
    /\ Forall (fun r => length r = 4) out.
Proof.
  destruct (@expectation_averages_all_members example_sampler example_permutations
              smoke_batch None (start smoke_net))
    as (out & Hforward & _ & _ & Hlen & Hrows & _).
  - reflexivity.
  - vm_compute. reflexivity.
  - reflexivity.
  - vm_compute. reflexivity.
  - exists 1. reflexivity.
  - exists out. split; [exact Hforward|]. split; [exact Hlen|exact Hrows].
Defined.

(** *** Shuffling rows to the members and back *)

Lemma block_concat {A} (c : nat) (rows : list (list A)) (i : nat) (r : list A) :
  Forall (fun r => length r = c) rows ->
  rows !! i = Some r ->
  Torch.block c (concat rows) i = r.
Proof.
  intros Hrows. revert i. induction Hrows as [|r0 rows Hr0 _ IH]; intros i Hi; [done|].
  unfold Torch.block in *. destruct i as [|i]; simpl in *.
  - injection Hi as <-. by apply take_app_length'.
  - rewrite drop_app_ge by lia. rewrite Hr0.
    replace (c + i * c - c) with (i * c) by lia. by apply IH.
Qed.

Lemma blocks_concat {A} (c : nat) (rows : list (list A)) :
  Forall (fun r => length r = c) rows ->
  Torch.blocks (length rows) c (concat rows) = rows.
Proof.
  intros Hrows. apply list_eq. intros i. unfold Torch.blocks.
  rewrite list_lookup_fmap.
  destruct (rows !! i) as [r|] eqn:Hi.
  - rewrite lookup_seq_lt by (by apply lookup_lt_Some in Hi). simpl.
    by rewrite (block_concat c rows i r).
  - apply lookup_ge_None in Hi. by rewrite lookup_seq_ge.
Qed.

Lemma length_concat_uniform {A} (c : nat) (rows : list (list A)) :
  Forall (fun r => length r = c) rows -> length (concat rows) = length rows * c.
Proof.
  induction 1 as [|r rows Hr _ IH]; simpl; [done|]. rewrite length_app. lia.
Qed.

Lemma lookup_concat_uniform {A} (c : nat) (bs : list (list A)) (i : nat) :
  Forall (fun b => length b = c) bs -> 0 < c ->
  concat bs !! i = bs !! (i / c) ≫= (fun b => b !! (i mod c)).
Proof.
  intros Hbs Hc. revert i. induction Hbs as [|b bs Hb _ IH]; intros i; simpl.
  - done.
  - destruct (decide (i < c)) as [Hlt|Hge].
    + rewrite lookup_app_l by lia.
      rewrite Nat.div_small, Nat.mod_small by done. done.
    + rewrite lookup_app_r by lia. rewrite Hb, IH.
      assert (Hd : i / c = S ((i - c) / c)).
      { replace i with ((i - c) + 1 * c) at 1 by lia. rewrite Nat.div_add by lia. lia. }
      assert (Hm : i mod c = (i - c) mod c).
      { replace i with ((i - c) + 1 * c) at 1 by lia. by rewrite Nat.Div0.mod_add. }
      by rewrite Hd, Hm.
Qed.

Lemma lookup_block {A} (c : nat) (l : list A) (k r : nat) :
  r < c -> Torch.block c l k !! r = l !! (k * c + r).
Proof. intros Hr. unfold Torch.block. by rewrite lookup_take_lt, lookup_drop. Qed.

Lemma length_block {A} (c : nat) (l : list A) (k : nat) :
  (S k) * c <= length l -> length (Torch.block c l k) = c.
Proof. intros Hk. unfold Torch.block. rewrite length_take, length_drop. lia. Qed.

Lemma scatter_untouched {A} (idx : list nat) (src dst : list A) (j : nat) :
  j ∉ idx ->
  foldl (fun acc ir => <[ir.1:=ir.2]> acc) dst (zip idx src) !! j = dst !! j.
Proof.
  revert src dst. induction idx as [|j0 idx IH]; intros [|x0 src] dst Hj; simpl; try done.
  apply not_elem_of_cons in Hj as [Hne Hj].
  rewrite IH by done. by apply list_lookup_insert_ne.
Qed.

Lemma scatter_length {A} (idx : list nat) (src dst : list A) :
  length (foldl (fun acc ir => <[ir.1:=ir.2]> acc) dst (zip idx src)) = length dst.
Proof.
  revert src dst. induction idx as [|j0 idx IH]; intros [|x0 src] dst; simpl; try done.
  by rewrite IH, length_insert.
Qed.

Lemma scatter_lookup {A} (idx : list nat) (src dst : list A) (i j : nat) (x : A) :
  NoDup idx ->
  Forall (fun k => k < length dst) idx ->
  idx !! i = Some j ->
  src !! i = Some x ->
  foldl (fun acc ir => <[ir.1:=ir.2]> acc) dst (zip idx src) !! j = Some x.
Proof.
  revert src dst i. induction idx as [|j0 idx IH]; intros [|x0 src] dst i Hnd Hin Hi Hx;
    simpl in *; try done.
  apply NoDup_cons in Hnd as [Hnotin Hnd]. apply Forall_cons in Hin as [Hj0 Hin].
  destruct i as [|i]; simpl in *.
  - injection Hi as <-. injection Hx as <-.
    rewrite scatter_untouched by done. by apply list_lookup_insert_eq.
  - apply (IH src _ i); try done. by rewrite length_insert.
Qed.

Lemma index_put_rows (pred : list (list Qc)) (idx : list nat) :
  idx ≡ₚ seq 0 (length pred) ->
  exists out,
    Torch.index_put pred idx pred = Ok out
    /\ length out = length pred
    /\ forall i j x, idx !! i = Some j -> pred !! i = Some x -> out !! j = Some x.
Proof.
  intros Hperm.
  assert (Hnd : NoDup idx) by (rewrite Hperm; apply NoDup_seq).
  assert (Hin : Forall (fun k => k < length pred) idx).
  { rewrite Hperm. apply Forall_forall. intros k Hk. apply elem_of_seq in Hk. lia. }
  assert (Hlen : length idx = length pred).
  { by rewrite Hperm, length_seq. }
  unfold Torch.index_put.
  assert (Hrange : existsb (fun i => length pred <=? i) idx = false).
  { apply not_true_is_false. intros Hex. apply existsb_exists in Hex as (k & Hk & Hle).
    apply Nat.leb_le in Hle. rewrite Forall_forall in Hin.
    apply list_elem_of_In in Hk. specialize (Hin k Hk). simpl in Hin. lia. }
  rewrite Hrange.
  assert (Hgen : exists out,
             Ok (foldl (fun acc ir => <[ir.1:=ir.2]> acc) pred (zip idx pred)) = Ok out
             /\ length out = length pred
             /\ forall i j x, idx !! i = Some j -> pred !! i = Some x -> out !! j = Some x).
  { eexists. split; [reflexivity|]. split; [apply scatter_length|].
    intros i j x Hi Hx. by apply (scatter_lookup idx pred pred i j x). }
  destruct pred as [|r [|r' pred]].
  - apply Nat.eqb_eq in Hlen. rewrite Hlen. exact Hgen.
  - destruct idx as [|j0 [|j1 idx]]; simpl in Hlen; try done.
  - apply Nat.eqb_eq in Hlen. rewrite Hlen. exact Hgen.
Qed.

Lemma Forall_concat_rows {A} (P : A -> Prop) (t : list (list A)) :
  Forall (Forall P) t -> Forall P (concat t).
Proof. induction 1 as [|m t Hm _ IH]; simpl; [done|]. by apply Forall_app. Qed.

Lemma view3_rows (a b c : nat) (rows : list (list Qc)) :
  Forall (fun r => length r = c) rows ->
  length rows = a * b ->
  a * b <> 0 ->
  Torch.view3 a b [rows] = Ok (Torch.blocks a b rows).
Proof.
  intros Hrows Hlen Hpos. unfold Torch.view3, Torch.flat3. simpl concat.
  rewrite app_nil_r, (length_concat_uniform c) by done. rewrite Hlen.
  apply Nat.eqb_neq in Hpos. rewrite Hpos.
  apply Nat.eqb_neq in Hpos.
  rewrite (Nat.mul_comm (a * b) c), Nat.div_mul by done.
  rewrite (Nat.mul_comm (a * b) c), Nat.eqb_refl.
  rewrite <- Hlen, blocks_concat by done. done.
Qed.

Lemma view2_rows (a c : nat) (t : list (list (list Qc))) :
  rows_of c t ->
  length (concat t) = a ->
  a <> 0 ->
  Torch.view2 a t = Ok (concat t).
Proof.
  intros Hrows Hlen Hpos. unfold Torch.view2, Torch.flat3.
  assert (Hall : Forall (fun r : list Qc => length r = c) (concat t))
    by (by apply Forall_concat_rows).
  rewrite (length_concat_uniform c) by done. rewrite Hlen.
  apply Nat.eqb_neq in Hpos. rewrite Hpos. apply Nat.eqb_neq in Hpos.
  rewrite (Nat.mul_comm a c), Nat.div_mul by done.
  rewrite (Nat.mul_comm a c), Nat.eqb_refl.
  rewrite <- Hlen, blocks_concat by done. done.
Qed.

Lemma rows_of_blocks (n a b : nat) (rows : list (list Qc)) :
  Forall (fun r => length r = n) rows -> rows_of n (Torch.blocks a b rows).
Proof.
  intros Hrows. unfold rows_of, Torch.blocks, Torch.block.
  apply Forall_fmap, Forall_forall. intros k _. simpl.
  by apply Forall_take, Forall_drop.
Qed.

Lemma length_blocks {A} (a b : nat) (l : list A) : length (Torch.blocks a b l) = a.
Proof. unfold Torch.blocks. by rewrite length_map, length_seq. Qed.

Lemma lookup_blocks {A} (a b : nat) (l : list A) (k : nat) :
  k < a -> Torch.blocks a b l !! k = Some (Torch.block b l k).
Proof. intros Hk. unfold Torch.blocks. by rewrite list_lookup_fmap, lookup_seq_lt. Qed.

(** Row [i] of the flattened prediction of [a] members, each on its block
    of [b] rows, is the prediction of member [i / b] for row [i]. *)
Lemma concat_blocks_lookup (f : nat -> list Qc -> list Qc) (ms : list nat) (a b : nat)
    (picked : list (list Qc)) (i : nat) (r : list Qc) :
  length ms = a ->
  length picked = a * b ->
  0 < b ->
  picked !! i = Some r ->
  concat (zip_with (fun e t => map (f e) t) ms (Torch.blocks a b picked)) !! i
  = Some (f (ms !!! (i / b)) r)
  /\ length (concat (zip_with (fun e t => map (f e) t) ms (Torch.blocks a b picked))) = a * b.
Proof.
  intros Hms Hlen Hb Hi.
  assert (Hi' : i < a * b) by (rewrite <- Hlen; by apply lookup_lt_Some in Hi).
  assert (Hk : i / b < a) by (apply Nat.Div0.div_lt_upper_bound; lia).
  assert (Huniform : Forall (fun t : list (list Qc) => length t = b)
                       (zip_with (fun e t => map (f e) t) ms (Torch.blocks a b picked))).
  { apply Forall_lookup. intros k t Hkt.
    apply lookup_zip_with_Some in Hkt as (e & t0 & -> & He & Ht0).
    assert (Hka : k < a) by (rewrite <- Hms; by apply lookup_lt_Some in He).
    rewrite lookup_blocks in Ht0 by done. injection Ht0 as <-.
    rewrite length_map. apply length_block. rewrite Hlen.
    apply Nat.mul_le_mono_r. lia. }
  split.
  - rewrite (lookup_concat_uniform b) by done.
    destruct (lookup_lt_is_Some_2 ms (i / b)) as [e He]; [lia|].
    assert (Hzip : zip_with (fun e t => map (f e) t) ms (Torch.blocks a b picked) !! (i / b)
                   = Some (map (f e) (Torch.block b picked (i / b)))).
    { apply lookup_zip_with_Some. exists e, (Torch.block b picked (i / b)).
      split; [done|]. split; [done|]. by apply lookup_blocks. }
    rewrite Hzip. simpl. rewrite list_lookup_fmap.
    rewrite lookup_block by (apply Nat.mod_upper_bound; lia).
    replace (i / b * b + i mod b) with i.
    2:{ rewrite (Nat.div_mod_eq i b) at 1. lia. }
    rewrite Hi. simpl. by rewrite (list_lookup_total_correct _ _ _ He).
  - rewrite (length_concat_uniform b) by done.
    rewrite length_zip_with_l_eq; rewrite ?length_blocks; lia.
Qed.

Section Shuffle.
Context `{VariationalSampler} `{PermutationSource}.

(** [_forward_from_indices] on the unsqueezed batch [[m]] with a
    permutation of its rows. *)
Lemma forward_from_indices_run (m : list (list Qc)) (idx : list nat) (s : Machine) :
  well_formed (net s) = true ->
  valid_elite (net s) = true ->
  Layer.rows_ok (in_size (net s)) (T2 m) = true ->
  0 < length m ->
  Nat.divide (model_len (net s)) (length m) ->
  idx ≡ₚ seq 0 (length m) ->
  exists out,
    _forward_from_indices [m] idx s = (Ok (T2 out), after_default_forward true s)
    /\ length out = length m
    /\ forall i j row,
         idx !! i = Some j -> m !! j = Some row ->
         out !! j
         = Some (member_row (net s) (rng s)
                   (active_members true (net s) !!! (i / (length m / model_len (net s))))
                   row).
Proof.
  intros Hwf Hvalid Hrows HB Hdiv Hperm.
  destruct (active_members_length _ Hwf Hvalid) as [Hactive Hpos].
  set (ms := active_members true (net s)) in *.
  set (M := model_len (net s)) in *. set (B := length m) in *.
  set (per := B / M).
  assert (HMper : M * per = B).
  { subst per. symmetry. apply Nat.Div0.div_exact. by apply Nat.Lcm0.mod_divide. }
  assert (Hper : 0 < per) by (destruct per; lia).
  assert (Hidx_len : length idx = B) by (by rewrite Hperm, length_seq).
  assert (Hidx_in : Forall (fun k => k < length m) idx).
  { rewrite Hperm. apply Forall_forall. intros k Hk. apply elem_of_seq in Hk. lia. }
  assert (Hm_rows : Forall (fun r : list Qc => length r = in_size (net s)) m).
  { simpl in Hrows. apply forallb_Forall in Hrows.
    eapply Forall_impl; [exact Hrows|]. intros r. apply Nat.eqb_eq. }
  set (picked := map (fun i => m !!! i) idx).
  assert (Hpicked_len : length picked = M * per).
  { subst picked. by rewrite length_map, HMper. }
  assert (Hpicked_rows : Forall (fun r : list Qc => length r = in_size (net s)) picked).
  { subst picked. apply Forall_fmap. eapply Forall_impl; [exact Hidx_in|].
    intros k Hk. simpl. by apply Forall_lookup_total_1. }
  (* the forward pass on the shuffled batch *)
  set (shuffled := Torch.blocks M per picked).
  destruct (default_forward_run (T3 shuffled) true s Hwf (fun _ => Hvalid)) as [Hrun Hout].
  { apply rows_ok_T3. by apply rows_of_blocks. }
  { fold ms. rewrite per_member_T3; subst shuffled; rewrite length_blocks; done. }
  fold ms in Hrun, Hout.
  rewrite per_member_T3 in Hrun, Hout by (subst shuffled; by rewrite length_blocks).
  set (pred := zip_with (fun e t => map (member_row (net s) (rng s) e) t) ms shuffled) in *.
  assert (Hpred_len : length (concat pred) = B).
  { assert (Hfirst : picked !! 0 = Some (picked !!! 0)).
    { apply list_lookup_lookup_total_lt. lia. }
    destruct (concat_blocks_lookup (member_row (net s) (rng s)) ms M per picked 0 _
                Hactive Hpicked_len Hper Hfirst) as [_ Hl].
    subst pred shuffled. by rewrite Hl. }
  destruct (index_put_rows (concat pred) idx) as (out & Hput & Hout_len & Hout_rows).
  { by rewrite Hpred_len. }
  exists out. split; [|split].
  - unfold _forward_from_indices.
    rewrite (bind_ok get_self _ s s (net s) eq_refl).
    assert (Hpick : Torch.index_dim1 [m] idx = Ok [picked]).
    { simpl. by rewrite gather_in_range. }
    rewrite (bind_ok (lift (Torch.index_dim1 [m] idx)) _ s s [picked])
      by (unfold lift; by rewrite Hpick).
    assert (Hdivide : py_floordiv (shape1 [m]) (model_len (net s)) = Ok per).
    { unfold py_floordiv. fold M. apply Nat.eqb_neq in Hpos. by rewrite Hpos. }
    rewrite (bind_ok (lift (py_floordiv _ _)) _ s s per)
      by (unfold lift; by rewrite Hdivide).
    assert (Hview : Torch.view3 (model_len (net s)) per [picked] = Ok shuffled).
    { apply (view3_rows _ _ (in_size (net s))); try done. fold M. lia. }
    rewrite (bind_ok (lift (Torch.view3 _ _ _)) _ s s shuffled)
      by (unfold lift; by rewrite Hview).
    rewrite (bind_ok _ _ _ _ _ Hrun).
    assert (Hview2 : Torch.view2 (shape1 [m]) pred = Ok (concat pred)).
    { apply (view2_rows _ (out_size (net s))); try done. simpl. fold B. lia. }
    rewrite (bind_ok (lift (Torch.view2 _ _)) _ _ _ (concat pred))
      by (unfold lift; by rewrite Hview2).
    rewrite (bind_ok (lift (Torch.index_put _ _ _)) _ _ _ out)
      by (unfold lift; by rewrite Hput).
    reflexivity.
  - by rewrite Hout_len, Hpred_len.
  - intros i j row Hi Hj.
    assert (Hpi : picked !! i = Some row).
    { subst picked. rewrite list_lookup_fmap, Hi. simpl.
      by rewrite (list_lookup_total_correct _ _ _ Hj). }
    destruct (concat_blocks_lookup (member_row (net s) (rng s)) ms M per picked i row
                Hactive Hpicked_len Hper Hpi) as [Hrow _].
    apply (Hout_rows i j _ Hi). exact Hrow.
Qed.

(** C1: with [random_model] or [fixed_model], a well-formed ensemble and a
    non-empty rank-2 batch whose size is a multiple of the active model
    count, [forward] returns one output row per input row, and row [j] of
    the output is the prediction for row [j] of the input, made by the
    member that the permutation assigned to it: the row that sits at
    position [i] of the shuffled batch goes to member [i / (B / M)] and its
    prediction is written back at position [permutation[i]]. *)
Theorem shuffled_forward_keeps_rows (method : string) (m : list (list Qc))
    (propagation_indices : option (list nat)) (s : Machine) :
  method = "random_model"%string \/ method = "fixed_model"%string ->
  propagation_method (net s) = Some method ->
  well_formed (net s) = true ->
  valid_elite (net s) = true ->
  Layer.rows_ok (in_size (net s)) (T2 m) = true ->
  0 < length m ->
  Nat.divide (model_len (net s)) (length m) ->
  (method = "fixed_model"%string ->
     exists idx, propagation_indices = Some idx /\ idx ≡ₚ seq 0 (length m)) ->
  exists out,
    forward (T2 m) propagation_indices true s
    = (Ok (T2 out), after_default_forward true (after_draw method (length m) s))
    /\ shuffle_indices method propagation_indices s (length m) ≡ₚ seq 0 (length m)
    /\ length out = length m
    /\ (forall i j row,
          shuffle_indices method propagation_indices s (length m) !! i = Some j ->
          m !! j = Some row ->
          out !! j
          = Some (member_row (net s) (rng (after_draw method (length m) s))
                    (active_members true (net s) !!! (i / (length m / model_len (net s))))
                    row))
    /\ (forall j row,
          m !! j = Some row ->
          exists e, e ∈ active_members true (net s)
                    /\ out !! j
                       = Some (member_row (net s) (rng (after_draw method (length m) s)) e row)).
Proof.
  intros Hmethod Hpm Hwf Hvalid Hrows HB Hdiv Hfixed.
  destruct (active_members_length _ Hwf Hvalid) as [Hactive Hpos].
  set (perm := shuffle_indices method propagation_indices s (length m)).
  set (s0 := after_draw method (length m) s).
  assert (Hperm : perm ≡ₚ seq 0 (length m)).
  { subst perm. unfold shuffle_indices. destruct Hmethod as [-> | ->].
    - apply randperm_perm.
    - destruct (Hfixed eq_refl) as (idx & -> & Hidx). exact Hidx. }
  assert (Hnet : net s0 = net s).
  { subst s0. unfold after_draw. by destruct (String.eqb method "random_model"). }
  destruct (forward_from_indices_run m perm s0) as (out & Hrun & Hlen & Hrows_out);
    rewrite ?Hnet; try done.
  rewrite Hnet in Hrows_out.
  assert (Hforward : forward (T2 m) propagation_indices true s
                     = (Ok (T2 out), after_default_forward true s0)).
  { unfold forward, _forward_ensemble.
    rewrite (bind_ok get_self _ s s (net s) eq_refl), Hpm.
    unfold py_mod. apply Nat.eqb_neq in Hpos. rewrite Hpos.
    apply Nat.Lcm0.mod_divide in Hdiv. rewrite Hdiv.
    rewrite (bind_ok (lift (Ok 0)) _ s s 0 eq_refl).
    change (negb (0 =? 0)) with false. cbv beta iota zeta.
    subst perm s0. unfold shuffle_indices, after_draw in *.
    destruct Hmethod as [-> | ->].
    - change (String.eqb "random_model" "random_model") with true in *. cbv beta iota zeta.
      rewrite (bind_ok (torch_randperm (shape1 [m])) _ s _ _ eq_refl). exact Hrun.
    - change (String.eqb "fixed_model" "random_model") with false in *.
      change (String.eqb "fixed_model" "fixed_model") with true. cbv beta iota zeta.
      destruct (Hfixed eq_refl) as (idx & -> & _). exact Hrun. }
  exists out. split; [exact Hforward|]. split; [exact Hperm|]. split; [exact Hlen|].
  split; [exact Hrows_out|].
  intros j row Hj.
  assert (Hjp : j ∈ perm).
  { rewrite Hperm. apply elem_of_seq. apply lookup_lt_Some in Hj. lia. }
  apply list_elem_of_lookup_1 in Hjp as [i Hi].
  exists (active_members true (net s) !!! (i / (length m / model_len (net s)))).
  split; [|by apply (Hrows_out i j row)].
  apply list_elem_of_lookup_total_2. rewrite Hactive.
  apply Nat.Div0.div_lt_upper_bound.
  assert (Hexact : model_len (net s) * (length m / model_len (net s)) = length m).
  { symmetry. apply Nat.Div0.div_exact. by apply Nat.Lcm0.mod_divide. }
  apply lookup_lt_Some in Hi. rewrite Hperm, length_seq in Hi.
  rewrite Nat.mul_comm, Hexact. exact Hi.
Qed.

End Shuffle.

Lemma shuffled_forward_keeps_rows_witness :
  let s := start (small_net (Some "fixed_model"%string) false) in
  let m := [[qz 1; qz 2]; [qz 0; qz 1]] in
  exists out,
    @forward example_sampler example_permutations (T2 m) (Some [1; 0]) true s
    = (Ok (T2 out), @after_default_forward example_sampler true s)
    /\ length out = 2
    /\ forall j row,
         m !! j = Some row ->
         exists e, e ∈ active_members true (net s)
                   /\ out !! j = Some (@member_row example_sampler (net s) (rng s) e row).
Proof.
  intros s m.
  destruct (@shuffled_forward_keeps_rows example_sampler example_permutations
              "fixed_model"%string m (Some [1; 0]) s)
    as (out & Hforward & _ & Hlen & _ & Hrows).
  - by right.
  - reflexivity.
  - vm_compute. reflexivity.
  - reflexivity.
  - vm_compute. reflexivity.
  - simpl. lia.
  - exists 1. reflexivity.
  - intros _. exists [1; 0]. split; [reflexivity|]. apply perm_swap.
  - exists out. split; [exact Hforward|]. split; [exact Hlen|exact Hrows].
Defined.

(** *** The model at work *)

Lemma relu_values : relu (qz 3) = qz 3 /\ relu (qz (-3)) = 0%Qc /\ relu 0%Qc = 0%Qc.
Proof. repeat split; apply Qc_is_canon; reflexivity. Qed.

(** Four rows shuffled by the reversing permutation among two members: rows
    3 and 2 go to member 0, rows 1 and 0 to member 1, and every prediction
    comes back to the position of its row. *)
Example random_model_run :
  let batch := [[qz 1; qz 2]; [qz 0; qz 1]; [qz 5; qz 1]; [qz 0; qz 7]] in
  let s := start (small_net (Some "random_model"%string) false) in
  let run := @forward example_sampler example_permutations (T2 batch) None true s in
  let row e j := this (@member_row example_sampler (net s) 1 e (batch !!! j) !!! 0) in
  match run.1 with
  | Ok (T2 out) => map (map this) out
  | _ => []
  end = [[row 1 0]; [row 1 1]; [row 0 2]; [row 0 3]]
  /\ trace run.2 = [PermDraw 4; LayerCall true; LayerCall true]
  /\ elite_flags (net run.2) = [false; false].
Proof. vm_compute. repeat split. Qed.

Example fixed_model_needs_indices :
  (@forward example_sampler example_permutations small_batch None true
     (start (small_net (Some "fixed_model"%string) false))).1
  = Raise (ValueError MissingPropagationIndices).
Proof. vm_compute. reflexivity. Qed.

Example unknown_method_is_refused :
  (@forward example_sampler example_permutations small_batch None true
     (start (small_net (Some "mean"%string) false))).1
  = Raise (ValueError (InvalidPropagationMethod "mean")).
Proof. vm_compute. reflexivity. Qed.

Example rank_three_is_refused_with_propagation :
  (@forward example_sampler example_permutations (T3 [[[qz 1; qz 2]]]) None true
     (start (small_net (Some "expectation"%string) false))).1
  = Raise AssertionError.
Proof. vm_compute. reflexivity. Qed.

Example frozen_loss_run :
  let run := @loss example_sampler example_permutations small_batch small_target
               (start (small_net None true)) in
  match run.1 with Ok (value, _) => this value | Raise _ => 0%Q end = 75%Q
  /\ trace run.2 = [LayerCall false; LayerCall false]
  /\ rng run.2 = 0.
Proof. vm_compute. repeat split. Qed.

Example sample_elbo_needs_a_sample :
  (@sample_elbo example_sampler example_permutations small_batch small_target 0 1%Qc
     (start (small_net None false))).1
  = Raise ZeroDivisionError.
Proof. vm_compute. reflexivity. Qed.

(** *** The constructor *)

Lemma chained_same_width (E hid out : nat) (act : Activation)
    (init : nat -> nat -> nat -> nat -> Posterior) (ks : list nat)
    (o : EnsembleLinearBayesian) :
  chained hid
    (map fst (map (fun k => (create_linear_layer E hid hid (init (S k)), act)) ks) ++ [o]) out
  = chained hid [o] out.
Proof.
  induction ks as [|k ks IH]; [done|].
  cbn [map fst app chained create_linear_layer in_features out_features].
  by rewrite Nat.eqb_refl, IH.
Qed.

Lemma created_layers_sound (E hid : nat) (act : Activation)
    (init : nat -> nat -> nat -> nat -> Posterior) (ks : list nat) :
  forallb (fun l => (length (units l) =? E) && negb (use_only_elite l))
    (map fst (map (fun k => (create_linear_layer E hid hid (init (S k)), act)) ks))
  = true.
Proof.
  induction ks as [|k ks IH]; [done|].
  cbn [map fst forallb create_linear_layer units use_only_elite].
  by rewrite length_map, length_seq, Nat.eqb_refl, IH.
Qed.


(** X1: for every ensemble size of at least one, and whatever the number of
    layers asked for, the constructor builds a well-formed model: one unit
    per member in every layer, elite restriction off, sizes that agree from
    [in_size] through [hid_size] to [out_size], no elite models, and
    [1 + (num_layers - 1)] hidden blocks, so one block also for
    [num_layers = 0]. *)
Theorem init_well_formed (n_in n_out num_layers ensemble_size hid_size : nat)
    (frozen : bool) (method : option string) (act : Activation)
    (init : nat -> nat -> nat -> nat -> Posterior) :
  1 <= ensemble_size ->
  let self := BNN_init n_in n_out num_layers ensemble_size hid_size
                frozen method act init in
  well_formed self = true
  /\ valid_elite self = true
  /\ elite_models self = None
  /\ num_members self = ensemble_size
  /\ in_size self = n_in /\ out_size self = n_out
  /\ length (hidden_layers self) = S (num_layers - 1).
Proof.
  intros HE self.
  assert (Hplain : well_formed (BNN_init n_in n_out num_layers ensemble_size hid_size
                                  false method act init) = true).
  { unfold BNN_init, well_formed, linear_layers.
    cbn [num_members hidden_layers output_layer in_size out_size map fst app
         forallb chained create_linear_layer units use_only_elite in_features
         out_features length].
    rewrite forallb_app, created_layers_sound, chained_same_width.
    cbn [forallb chained create_linear_layer units use_only_elite in_features
         out_features].
    rewrite !length_map, !length_seq, !Nat.eqb_refl.
    apply Nat.leb_le in HE. by rewrite HE. }
  split.
  - subst self. destruct frozen; [|exact Hplain].
    unfold BNN_init in *. cbv zeta in *. by rewrite well_formed_frozen.
  - subst self. unfold BNN_init.
    destruct frozen; cbn; rewrite !length_map, !length_seq; done.
Qed.

Lemma init_well_formed_witness :
  let self := BNN_init 3 2 0 1 4 true None relu example_init in
  well_formed self = true
  /\ valid_elite self = true
  /\ elite_models self = None
  /\ num_members self = 1
  /\ in_size self = 3 /\ out_size self = 2
  /\ length (hidden_layers self) = 1.
Proof. apply (init_well_formed 3 2 0 1 4 true None relu example_init). lia. Defined.


(** *** Forward passes without a propagation method *)

Section PlainForward.
Context `{VariationalSampler} `{PermutationSource}.

Lemma default_forward_plain_run x s :
  well_formed (net s) = true ->
  Layer.rows_ok (in_size (net s)) x = true ->
  length (per_member (num_members (net s)) x) = num_members (net s) ->
  _default_forward x false s = (Ok (prediction s x), after_default_forward false s).
Proof.
  intros Hwf Hrows Hlen.
  destruct (default_forward_run x false s Hwf) as [Hrun _];
    rewrite ?toggles_off, ?active_members_plain, ?length_seq; try done.
  by rewrite active_members_plain, length_seq in Hrun.
Qed.

(** X3: with no propagation method, [forward] is the default forward pass
    over all the members, whatever the elite set: for an ensemble of one
    member the leading axis is dropped and the rank-2 prediction of that
    member is returned, otherwise the rank-3 prediction of every member for
    its batch. *)
Theorem forward_without_method x propagation_indices s :
  propagation_method (net s) = None ->
  well_formed (net s) = true ->
  Layer.rows_ok (in_size (net s)) x = true ->
  length (per_member (num_members (net s)) x) = num_members (net s) ->
  (num_members (net s) = 1 ->
     exists m, per_member 1 x = [m]
               /\ forward x propagation_indices true s
                  = (Ok (T2 (map (member_row (net s) (rng s) 0) m)),
                     after_default_forward false s))
  /\ (num_members (net s) <> 1 ->
        forward x propagation_indices true s
        = (Ok (T3 (prediction s x)), after_default_forward false s)).
Proof.
  intros Hmethod Hwf Hrows Hlen.
  pose proof (default_forward_plain_run x s Hwf Hrows Hlen) as Hrun.
  unfold forward, _forward_ensemble.
  rewrite (bind_ok get_self _ s s (net s) eq_refl), Hmethod.
  rewrite (bind_ok _ _ _ _ _ Hrun).
  split; intros HE.
  - rewrite HE in *. change (1 =? 1) with true. cbv iota.
    destruct (per_member 1 x) as [|m [|m' rest]] eqn:Hper; simpl in Hlen; try done.
    exists m. split; [done|].
    unfold prediction. rewrite HE, Hper. reflexivity.
  - apply Nat.eqb_neq in HE. by rewrite HE.
Qed.

End PlainForward.

Lemma forward_without_method_witness :
  let s := start (small_net None false) in
  let one := start single_net in
  @forward example_sampler example_permutations small_batch None true s
  = (Ok (T3 (@prediction example_sampler s small_batch)),
     @after_default_forward example_sampler false s)
  /\ exists m,
       per_member 1 small_batch = [m]
       /\ @forward example_sampler example_permutations small_batch None true one
          = (Ok (T2 (map (@member_row example_sampler (net one) (rng one) 0) m)),
             @after_default_forward example_sampler false one).
Proof.
  intros s one. split.
  - apply (proj2 (@forward_without_method example_sampler example_permutations
                    small_batch None s eq_refl
                    ltac:(vm_compute; reflexivity) ltac:(vm_compute; reflexivity) eq_refl)).
    simpl. lia.
  - apply (proj1 (@forward_without_method example_sampler example_permutations
                    small_batch None one eq_refl
                    ltac:(vm_compute; reflexivity) ltac:(vm_compute; reflexivity) eq_refl)).
    reflexivity.
Defined.

(** *** The order of the checks of the propagation engine *)

Section Dispatch.
Context `{VariationalSampler} `{PermutationSource}.

Lemma forward_past_batch_check (method : string) (m : list (list Qc))
    (propagation_indices : option (list nat)) (s : Machine) :
  propagation_method (net s) = Some method ->
  model_len (net s) <> 0 ->
  Nat.divide (model_len (net s)) (length m) ->
  forward (T2 m) propagation_indices true s
  = (if String.eqb method "random_model" then
       model_indices ← torch_randperm (shape1 [m]);
       _forward_from_indices [m] model_indices
     else if String.eqb method "fixed_model" then
       match propagation_indices with
       | None => raise (ValueError MissingPropagationIndices)
       | Some indices => _forward_from_indices [m] indices
       end
     else if String.eqb method "expectation" then
       pred ← _default_forward (T3 [m]) true;
       mean ← lift (Torch.mean_dim0 pred);
       mret (T2 mean)
     else raise (ValueError (InvalidPropagationMethod method))) s.
Proof.
  intros Hmethod Hpos Hdiv. unfold forward, _forward_ensemble.
  rewrite (bind_ok get_self _ s s (net s) eq_refl), Hmethod.
  unfold py_mod. apply Nat.eqb_neq in Hpos. rewrite Hpos.
  apply Nat.Lcm0.mod_divide in Hdiv. rewrite Hdiv.
  rewrite (bind_ok (lift (Ok 0)) _ s s 0 eq_refl).
  change (negb (0 =? 0)) with false. reflexivity.
Qed.

(** X4: with [fixed_model] and a rank-2 batch that passes the batch-size
    check, a call without [propagation_indices] raises the [ValueError] that
    asks for them, before any layer runs: the state is that of entry. *)
Theorem fixed_model_without_indices (m : list (list Qc)) (s : Machine) :
  propagation_method (net s) = Some "fixed_model"%string ->
  model_len (net s) <> 0 ->
  Nat.divide (model_len (net s)) (length m) ->
  forward (T2 m) None true s = (Raise (ValueError MissingPropagationIndices), s).
Proof.
  intros Hmethod Hpos Hdiv.
  by rewrite (forward_past_batch_check _ _ _ _ Hmethod Hpos Hdiv).
Qed.


End Dispatch.

Lemma fixed_model_without_indices_witness :
  let s := start (small_net (Some "fixed_model"%string) false) in
  @forward example_sampler example_permutations small_batch None true s
  = (Raise (ValueError MissingPropagationIndices), s).
Proof.
  intros s.
  apply (@fixed_model_without_indices example_sampler example_permutations
           [[qz 1; qz 2]; [qz 0; qz 1]] s).
  - reflexivity.
  - vm_compute. lia.
  - exists 1. reflexivity.
Defined.


(** *** Propagation indices *)

Section Indices.
Context `{VariationalSampler} `{PermutationSource}.

Lemma sample_propagation_indices_run (batch_size : nat) (s : Machine) :
  model_len (net s) <> 0 ->
  Nat.divide (model_len (net s)) batch_size ->
  sample_propagation_indices batch_size s
  = (Ok (randperm (rng s) batch_size),
     {| net := net s; rng := S (rng s); trace := trace s ++ [PermDraw batch_size] |}).
Proof.
  intros Hpos Hdiv. unfold sample_propagation_indices.
  rewrite (bind_ok get_self _ s s (net s) eq_refl).
  unfold py_mod. apply Nat.eqb_neq in Hpos. rewrite Hpos.
  apply Nat.Lcm0.mod_divide in Hdiv. rewrite Hdiv.
  rewrite (bind_ok (lift (Ok 0)) _ s s 0 eq_refl).
  reflexivity.
Qed.

(** X6: for a batch size that is a multiple of the active model count,
    [sample_propagation_indices] returns a permutation of [0, batch_size):
    every row index once, none out of range.  The model is left as it is;
    only the random generator moves, by the one draw. *)
Theorem sampled_indices_are_a_permutation (batch_size : nat) (s : Machine) :
  model_len (net s) <> 0 ->
  Nat.divide (model_len (net s)) batch_size ->
  exists indices s',
    sample_propagation_indices batch_size s = (Ok indices, s')
    /\ indices ≡ₚ seq 0 batch_size
    /\ length indices = batch_size
    /\ NoDup indices
    /\ (forall j, j ∈ indices <-> j < batch_size)
    /\ net s' = net s
    /\ trace s' = trace s ++ [PermDraw batch_size].
Proof.
  intros Hpos Hdiv. eexists _, _.
  split; [by apply sample_propagation_indices_run|].
  pose proof (randperm_perm (rng s) batch_size) as Hperm.
  split; [exact Hperm|]. split; [by rewrite Hperm, length_seq|].
  split; [rewrite Hperm; apply NoDup_seq|].
  split; [|done].
  intros j. rewrite Hperm, elem_of_seq. lia.
Qed.

(** X7: [sample_propagation_indices] and [forward] share the batch-size
    check.  Whenever the first raises for the size of a rank-2 batch, nothing
    was drawn (the state is that of entry) and [forward] with a propagation
    method raises the same exception for that batch, whatever the method and
    the indices; whenever it returns, the size is a multiple of the active
    model count. *)
Theorem sampled_indices_same_refusal (method : string) (m : list (list Qc))
    (propagation_indices : option (list nat)) (s : Machine) :
  propagation_method (net s) = Some method ->
  (forall e s',
     sample_propagation_indices (length m) s = (Raise e, s') ->
     s' = s /\ forward (T2 m) propagation_indices true s = (Raise e, s))
  /\ (forall indices s',
        sample_propagation_indices (length m) s = (Ok indices, s') ->
        model_len (net s) <> 0 /\ Nat.divide (model_len (net s)) (length m)).
Proof.
  intros Hmethod.
  unfold sample_propagation_indices, forward, _forward_ensemble.
  rewrite !(bind_ok get_self _ s s (net s) eq_refl), Hmethod.
  change (shape1 [m]) with (length m).
  unfold py_mod. destruct (model_len (net s) =? 0) eqn:Hzero.
  - split; [|intros ?? [=]]. intros e s' [= <- <-]. done.
  - rewrite !(bind_ok (lift (Ok _)) _ s s _ eq_refl).
    destruct (length m mod model_len (net s) =? 0) eqn:Hmod.
    + split; [intros ?? [=]|]. intros indices s' _.
      apply Nat.eqb_neq in Hzero. apply Nat.eqb_eq in Hmod.
      split; [exact Hzero|]. by apply Nat.Lcm0.mod_divide.
    + split; [|intros ?? [=]]. intros e s' [= <- <-]. done.
Qed.

End Indices.

Lemma sampled_indices_are_a_permutation_witness :
  exists indices s',
    @sample_propagation_indices example_permutations 4 (start elite_net) = (Ok indices, s')
    /\ indices ≡ₚ seq 0 4
    /\ length indices = 4
    /\ NoDup indices
    /\ (forall j, j ∈ indices <-> j < 4)
    /\ net s' = elite_net
    /\ trace s' = [PermDraw 4].
Proof.
  apply (@sampled_indices_are_a_permutation example_permutations 4 (start elite_net)).
  - vm_compute. lia.
  - exists 4. reflexivity.
Defined.

Lemma sampled_indices_same_refusal_witness :
  let s := start (small_net (Some "fixed_model"%string) false) in
  let m := [[qz 1; qz 2]; [qz 0; qz 1]; [qz 1; qz 1]] in
  @sample_propagation_indices example_permutations 3 s
  = (Raise (ValueError (BatchNotMultiple 3 2)), s)
  /\ @forward example_sampler example_permutations (T2 m) None true s
     = (Raise (ValueError (BatchNotMultiple 3 2)), s).
Proof.
  intros s m.
  destruct (@sampled_indices_same_refusal example_sampler example_permutations
              "fixed_model"%string m None s eq_refl) as [Hraise _].
  split; [reflexivity|].
  apply (Hraise (ValueError (BatchNotMultiple 3 2)) s). reflexivity.
Defined.

(** *** Sampled indices with [fixed_model] against [random_model] *)

Section FixedRandom.
Context `{VariationalSampler} `{PermutationSource}.

Lemma after_default_forward_method only_elite method (self : BNN) (s : Machine) :
  after_default_forward only_elite (with_net (with_propagation_method method self) s)
  = with_net (with_propagation_method method
                (net (after_default_forward only_elite (with_net self s))))
             (after_default_forward only_elite (with_net self s)).
Proof.
  unfold after_default_forward, with_net, mark_elite, linear_layers. simpl.
  destruct (elite_models self); [|reflexivity].
  by destruct ((1 <? num_members self) && only_elite).
Qed.

(** X8: [fixed_model] fed with the indices of [sample_propagation_indices]
    is [random_model].  On a well-formed ensemble and a non-empty rank-2
    batch of a legal size, drawing the indices and passing them to [forward]
    under [fixed_model] returns the tensor that one call of [forward] under
    [random_model] returns from the same state, and leaves the same layers,
    random generator and trace. *)
Theorem fixed_model_with_sampled_indices (m : list (list Qc)) (s : Machine) :
  well_formed (net s) = true ->
  valid_elite (net s) = true ->
  Layer.rows_ok (in_size (net s)) (T2 m) = true ->
  0 < length m ->
  Nat.divide (model_len (net s)) (length m) ->
  let fixed := with_net (with_propagation_method (Some "fixed_model"%string) (net s)) s in
  let random := with_net (with_propagation_method (Some "random_model"%string) (net s)) s in
  exists out s',
    forward (T2 m) None true random = (Ok (T2 out), s')
    /\ (indices ← sample_propagation_indices (length m);
        forward (T2 m) (Some indices) true) fixed
       = (Ok (T2 out),
          with_net (with_propagation_method (Some "fixed_model"%string) (net s')) s')
    /\ length out = length m.
Proof.
  intros Hwf Hvalid Hrows HB Hdiv fixed random.
  destruct (active_members_length _ Hwf Hvalid) as [_ Hpos].
  set (idx := randperm (rng s) (length m)).
  set (drawn := {| net := net s; rng := S (rng s);
                   trace := trace s ++ [PermDraw (length m)] |}).
  destruct (forward_from_indices_run m idx
              (with_net (with_propagation_method (Some "random_model"%string) (net s)) drawn))
    as (out & Hrandom & Hlen & Hrows_r); try done; [apply randperm_perm|].
  destruct (forward_from_indices_run m idx
              (with_net (with_propagation_method (Some "fixed_model"%string) (net s)) drawn))
    as (out' & Hfixed & Hlen' & Hrows_f); try done; [apply randperm_perm|].
  assert (Hout : out' = out).
  { apply list_eq. intros j. destruct (m !! j) as [row|] eqn:Hrow.
    - assert (Hj : j ∈ idx).
      { unfold idx. rewrite (randperm_perm (rng s) (length m)), elem_of_seq.
        apply lookup_lt_Some in Hrow. lia. }
      apply list_elem_of_lookup_1 in Hj as [i Hi].
      rewrite (Hrows_f i j row Hi Hrow), (Hrows_r i j row Hi Hrow). reflexivity.
    - apply lookup_ge_None in Hrow.
      rewrite (proj2 (lookup_ge_None out' j)), (proj2 (lookup_ge_None out j)); [done|lia..]. }
  subst out'.
  rewrite after_default_forward_method in Hrandom, Hfixed.
  exists out. eexists. split; [|split; [|exact Hlen]].
  - rewrite (forward_past_batch_check "random_model" m None random eq_refl Hpos Hdiv).
    change (String.eqb "random_model" "random_model") with true. cbv beta iota.
    rewrite (bind_ok (torch_randperm (shape1 [m])) _ random _ _ eq_refl).
    exact Hrandom.
  - rewrite (bind_ok (sample_propagation_indices (length m)) _ fixed _ _
               (sample_propagation_indices_run (length m) fixed Hpos Hdiv)).
    refine (eq_trans (forward_past_batch_check "fixed_model" m (Some idx)
                        (with_net (with_propagation_method (Some "fixed_model"%string) (net s))
                                  drawn)
                        eq_refl Hpos Hdiv) _).
    change (String.eqb "fixed_model" "random_model") with false.
    change (String.eqb "fixed_model" "fixed_model") with true. cbv beta iota.
    exact Hfixed.
Qed.

End FixedRandom.

Lemma fixed_model_with_sampled_indices_witness :
  let s := start (small_net None false) in
  let m := [[qz 1; qz 2]; [qz 0; qz 1]] in
  let fixed := with_net (with_propagation_method (Some "fixed_model"%string) (net s)) s in
  let random := with_net (with_propagation_method (Some "random_model"%string) (net s)) s in
  exists out s',
    @forward example_sampler example_permutations (T2 m) None true random = (Ok (T2 out), s')
    /\ (indices ← @sample_propagation_indices example_permutations (length m);
        @forward example_sampler example_permutations (T2 m) (Some indices) true) fixed
       = (Ok (T2 out),
          with_net (with_propagation_method (Some "fixed_model"%string) (net s')) s')
    /\ length out = length m.
Proof.
  intros s m.
  apply (@fixed_model_with_sampled_indices example_sampler example_permutations m s).
  - reflexivity.
  - reflexivity.
  - reflexivity.
  - simpl. lia.
  - exists 1. reflexivity.
Defined.

(** *** Freezing and unfreezing *)

Section Freezing.
Context `{VariationalSampler} `{PermutationSource}.

Lemma freeze_layers_again b b' c c' (self : BNN) :
  freeze_layers b (with_freeze b' (freeze_layers c (with_freeze c' self)))
  = freeze_layers b (with_freeze b' self).
Proof.
  unfold freeze_layers, with_layers, with_freeze. simpl. f_equal.
  rewrite map_map. reflexivity.
Qed.

Lemma layer_with_freeze_same (l : EnsembleLinearBayesian) :
  Layer.with_freeze (layer_freeze l) l = l.
Proof. by destruct l. Qed.

Lemma freeze_layers_same b (self : BNN) :
  freeze self = b ->
  Forall (fun l => layer_freeze l = b) (linear_layers self) ->
  freeze_layers b (with_freeze b self) = self.
Proof.
  intros Hflag Hlayers. unfold linear_layers in Hlayers.
  apply Forall_app in Hlayers as [Hhidden Hout].
  rewrite Forall_singleton in Hout.
  destruct self as [n pm i o hs out fr el]. simpl in *. subst fr.
  unfold freeze_layers, with_layers, with_freeze. simpl. f_equal.
  - clear Hout. induction hs as [|[l act] rest IH]; [done|].
    apply Forall_cons in Hhidden as [Hl Hrest]. simpl in *.
    rewrite (IH Hrest). rewrite <- Hl at 1. by rewrite layer_with_freeze_same.
  - rewrite <- Hout at 1. apply layer_with_freeze_same.
Qed.

Lemma set_freeze_run (b : bool) (s : Machine) :
  (if b then freeze_model else unfreeze_model) s
  = (Ok tt, with_net (freeze_layers b (with_freeze b (net s))) s).
Proof. by destruct b. Qed.

(** X9: [freeze_model] and [unfreeze_model] write the flag of the ensemble
    and of every linear layer, and nothing else: the posteriors of the units,
    the elite flags and the elite set, the member count, the propagation
    method, the log-densities behind the KL term, the random generator and
    the trace are those of entry.  Neither of them can fail. *)
Theorem freeze_calls_write_only_flags (b : bool) (s : Machine) :
  exists s',
    (if b then freeze_model else unfreeze_model) s = (Ok tt, s')
    /\ freeze (net s') = b
    /\ freeze_flags (net s') = replicate (length (linear_layers (net s))) b
    /\ map units (linear_layers (net s')) = map units (linear_layers (net s))
    /\ elite_flags (net s') = elite_flags (net s)
    /\ elite_models (net s') = elite_models (net s)
    /\ num_members (net s') = num_members (net s)
    /\ propagation_method (net s') = propagation_method (net s)
    /\ kl_sum (net s') = kl_sum (net s)
    /\ well_formed (net s') = well_formed (net s)
    /\ rng s' = rng s /\ trace s' = trace s.
Proof.
  eexists. split; [apply set_freeze_run|].
  unfold with_net. cbn [net rng trace].
  split; [done|].
  unfold freeze_flags, elite_flags, kl_sum, unit_kl.
  rewrite linear_layers_frozen, !map_map. cbn [linear_layers with_freeze].
  split.
  { change (linear_layers (with_freeze b (net s))) with (linear_layers (net s)).
    generalize (linear_layers (net s)). intros ls.
    induction ls as [|l rest IH]; [done|].
    cbn [map length replicate]. rewrite IH. reflexivity. }
  change (linear_layers (with_freeze b (net s))) with (linear_layers (net s)).
  repeat (split; [done|]).
  split; [apply well_formed_frozen|done].
Qed.

(** X10: of two calls among [freeze_model] and [unfreeze_model] the last one
    decides: the pair leaves the state that the second call alone leaves.  A
    call that asks for the mode the model is in already (flag of the
    ensemble and of every layer) changes nothing, so freezing such a sampling
    model and unfreezing it again gives back the state of entry. *)
Theorem freeze_calls_compose (s : Machine) :
  (freeze_model;; unfreeze_model) s = unfreeze_model s
  /\ (unfreeze_model;; freeze_model) s = freeze_model s
  /\ (freeze_model;; freeze_model) s = freeze_model s
  /\ (unfreeze_model;; unfreeze_model) s = unfreeze_model s
  /\ (freeze (net s) = false ->
      Forall (fun l => layer_freeze l = false) (linear_layers (net s)) ->
      unfreeze_model s = (Ok tt, s)
      /\ (freeze_model;; unfreeze_model) s = (Ok tt, s))
  /\ (freeze (net s) = true ->
      Forall (fun l => layer_freeze l = true) (linear_layers (net s)) ->
      freeze_model s = (Ok tt, s)
      /\ (unfreeze_model;; freeze_model) s = (Ok tt, s)).
Proof.
  assert (Hpair : forall b c : bool,
            ((if c then freeze_model else unfreeze_model);;
             (if b then freeze_model else unfreeze_model)) s
            = (if b then freeze_model else unfreeze_model) s).
  { intros b c.
    unfold mbind, machine_bind. rewrite (set_freeze_run c s), !set_freeze_run.
    unfold with_net. cbn [net rng trace]. by rewrite freeze_layers_again. }
  assert (Hsame : forall b : bool,
            freeze (net s) = b ->
            Forall (fun l => layer_freeze l = b) (linear_layers (net s)) ->
            (if b then freeze_model else unfreeze_model) s = (Ok tt, s)).
  { intros b Hflag Hlayers. rewrite set_freeze_run, (freeze_layers_same b _ Hflag Hlayers).
    unfold with_net. by rewrite machine_eta. }
  split; [exact (Hpair false true)|]. split; [exact (Hpair true false)|].
  split; [exact (Hpair true true)|]. split; [exact (Hpair false false)|].
  split; intros Hflag Hlayers.
  - split; [exact (Hsame false Hflag Hlayers)|].
    etrans; [exact (Hpair false true)|exact (Hsame false Hflag Hlayers)].
  - split; [exact (Hsame true Hflag Hlayers)|].
    etrans; [exact (Hpair true false)|exact (Hsame true Hflag Hlayers)].
Qed.

End Freezing.

Lemma freeze_calls_compose_witness :
  let s := start (small_net None false) in
  let t := start (small_net None true) in
  (freeze_model;; unfreeze_model) s = (Ok tt, s)
  /\ (unfreeze_model;; freeze_model) t = (Ok tt, t).
Proof.
  intros s t. split.
  - apply (freeze_calls_compose s); [reflexivity|].
    repeat constructor.
  - apply (freeze_calls_compose t); [reflexivity|].
    repeat constructor.
Defined.

(** *** The frozen model as a function *)





Section FrozenModel.
Context `{VariationalSampler} `{PermutationSource}.

Lemma hidden_after_frozen ls g :
  Forall (fun l => layer_freeze l = true) (map fst ls) -> hidden_after ls g = ls.
Proof.
  revert g. induction ls as [|[l act] rest IH]; intros g Hfrozen; [done|].
  apply Forall_cons in Hfrozen as [Hl Hrest]. simpl in Hl.
  cbn [hidden_after]. unfold Layer.after_pass, Layer.rng_after. rewrite Hl.
  by rewrite (IH g Hrest).
Qed.

(** A pass through layers that are all frozen leaves the model and the
    random generator as they are. *)
Lemma after_plain_frozen (s : Machine) :
  Forall (fun l => layer_freeze l = true) (linear_layers (net s)) ->
  after_default_forward false s
  = {| net := net s; rng := rng s;
       trace := trace s ++ replicate (length (linear_layers (net s))) (LayerCall false) |}.
Proof.
  intros Hfrozen. unfold after_default_forward.
  rewrite mark_elite_toggles, toggles_off.
  rewrite (layer_event_frozen _ Hfrozen), (stack_rng_frozen _ _ Hfrozen).
  pose proof Hfrozen as Hboth. unfold linear_layers in Hboth.
  apply Forall_app in Hboth as [Hhidden Hout]. rewrite Forall_singleton in Hout.
  rewrite (hidden_after_frozen _ _ Hhidden).
  unfold Layer.after_pass. rewrite Hout. by rewrite with_layers_same.
Qed.



(** X11: once [freeze_model] has run, [forward] without propagation is a
    function of its input alone: from any state of the random generator it
    returns the prediction of the network at its posterior means, and it
    leaves the model and the generator as they are, so that a second call
    returns the same tensor. *)
Theorem frozen_forward_is_repeatable (x : Tensor) (s : Machine) :
  well_formed (net s) = true ->
  Layer.rows_ok (in_size (net s)) x = true ->
  length (per_member (num_members (net s)) x) = num_members (net s) ->
  let frozen := net (freeze_model s).2 in
  let calls := replicate (length (linear_layers (net s))) (LayerCall false) in
  forall g tr,
    forward x None false {| net := frozen; rng := g; trace := tr |}
    = (Ok (T3 (frozen_prediction (net s) x)),
       {| net := frozen; rng := g; trace := tr ++ calls |})
    /\ (forward x None false;; forward x None false) {| net := frozen; rng := g; trace := tr |}
       = (Ok (T3 (frozen_prediction (net s) x)),
          {| net := frozen; rng := g; trace := (tr ++ calls) ++ calls |}).
Proof.
  intros Hwf Hrows Hlen frozen calls.
  assert (Hcall : forall g tr,
            forward x None false {| net := frozen; rng := g; trace := tr |}
            = (Ok (T3 (frozen_prediction (net s) x)),
               {| net := frozen; rng := g; trace := tr ++ calls |})).
  { intros g tr.
    rewrite forward_plain_run; cbn [net]; subst frozen;
      rewrite ?freeze_model_run; cbn [snd net];
      [|by rewrite well_formed_frozen|exact Hrows|exact Hlen].
    rewrite (frozen_prediction_run {| net := net s; rng := g; trace := tr |} x Hwf).
    rewrite after_plain_frozen by apply (all_frozen (with_freeze true (net s))).
    cbn [net rng trace]. subst calls.
    by rewrite linear_layers_frozen, length_map. }
  intros g tr. split; [apply Hcall|].
  unfold mbind, machine_bind. rewrite Hcall. apply Hcall.
Qed.



End FrozenModel.

Lemma frozen_forward_is_repeatable_witness :
  let s := start (small_net None false) in
  let frozen := net (freeze_model s).2 in
  @forward example_sampler example_permutations small_batch None false
    {| net := frozen; rng := 7; trace := [] |}
  = (Ok (T3 (frozen_prediction (net s) small_batch)),
     {| net := frozen; rng := 7; trace := [] ++ replicate 2 (LayerCall false) |}).
Proof.
  intros s frozen.
  refine (proj1 (@frozen_forward_is_repeatable example_sampler example_permutations
                   small_batch s _ _ _ 7 [])).
  - vm_compute. reflexivity.
  - vm_compute. reflexivity.
  - reflexivity.
Defined.



(** *** The frozen loss against the evaluation score *)

Section Scores.
Context `{VariationalSampler} `{PermutationSource}.

Lemma eval_score_run (x t : list (list Qc)) (s : Machine) :
  well_formed (net s) = true ->
  Layer.rows_ok (in_size (net s)) (T2 x) = true ->
  Forall2 (fun (_ r : list Qc) => length r = out_size (net s)) x t ->
  eval_score (T2 x) (T2 t) s
  = (Ok (T3 (squared_errors (prediction s (T2 x)) (replicate (num_members (net s)) t)),
         empty_meta),
     after_default_forward false s).
Proof.
  intros Hwf Hrows Hshape.
  assert (Hlen : length (per_member (num_members (net s)) (T2 x)) = num_members (net s))
    by apply length_replicate.
  pose proof (forward_plain_run (T2 x) s Hwf Hrows Hlen) as Hfw.
  unfold eval_score.
  assert (Hassert : py_assert ((ndim (T2 x) =? 2) && (ndim (T2 t) =? 2)) s = (Ok tt, s))
    by reflexivity.
  rewrite (bind_ok _ _ _ _ _ Hassert).
  rewrite (bind_ok _ _ _ _ _ Hfw).
  rewrite (bind_ok get_self _ _ _ _ eq_refl).
  destruct (settings_sizes _ _ (after_plain_settings s)) as (_ & _ & HE & _).
  rewrite HE. simpl repeat_n_1_1. unfold Torch.repeat3.
  set (pred := prediction s (T2 x)).
  assert (Hpl : length pred = num_members (net s)).
  { subst pred. by rewrite prediction_rank2, length_map, length_seq. }
  assert (Hper : per_member (length pred) (T3 (replicate (num_members (net s)) t))
                 = replicate (num_members (net s)) t).
  { apply per_member_T3. by rewrite length_replicate. }
  unfold lift. unfold mbind, machine_bind.
  rewrite mse_loss_none_rank3; rewrite Hper; [done|].
  subst pred. unfold prediction.
  apply (Forall2_zip_with_rows (num_members (net s)) (out_size (net s))
           (member_row (net s) (rng s))).
  - intros e r. by rewrite member_row_length, well_formed_out.
  - by rewrite length_seq.
  - simpl. by apply Forall2_replicate_both.
Qed.

(** X14: on a frozen model (the flag of the ensemble and of every layer
    set, as [freeze_model] leaves them) and a rank-2 batch with a rank-2
    target, the value of [loss] is the total of the entries of the tensor
    that [eval_score] returns for the same arguments from the same state,
    and both calls leave the same state. *)
Theorem frozen_loss_is_total_of_scores (x t : list (list Qc)) (s : Machine) :
  freeze (net s) = true ->
  Forall (fun l => layer_freeze l = true) (linear_layers (net s)) ->
  well_formed (net s) = true ->
  Layer.rows_ok (in_size (net s)) (T2 x) = true ->
  Forall2 (fun (_ r : list Qc) => length r = out_size (net s)) x t ->
  exists scores s',
    eval_score (T2 x) (T2 t) s = (Ok (T3 scores, empty_meta), s')
    /\ loss (T2 x) (T2 t) s
       = (Ok (vsum (map (fun m => vsum (map vsum m)) scores), empty_meta), s')
    /\ length scores = num_members (net s)
    /\ Forall (fun m : list (list Qc) => length m = length x) scores.
Proof.
  intros Hflag Hlayers Hwf Hrows Hshape.
  eexists _, _. split; [by apply eval_score_run|].
  assert (Hfit : target_fits (num_members (net s)) (out_size (net s)) (T2 x) (T2 t)).
  { split; [done|]. split; [apply length_replicate|].
    simpl. by apply Forall2_replicate_both. }
  split; [|split].
  - unfold loss. rewrite (bind_ok get_self _ s s (net s) eq_refl), Hflag.
    assert (Hfreeze : freeze_model s = (Ok tt, s)).
    { rewrite freeze_model_run, (freeze_layers_same true _ Hflag Hlayers).
      by rewrite machine_eta. }
    rewrite (bind_ok _ _ _ _ _ Hfreeze).
    rewrite (bind_ok _ _ _ _ _ (mse_loss_run (T2 x) (T2 t) s Hwf Hrows Hfit)).
    reflexivity.
  - unfold squared_errors. rewrite prediction_rank2.
    rewrite length_zip_with, length_map, length_seq, length_replicate. lia.
  - unfold squared_errors. rewrite prediction_rank2.
    apply Forall_forall. intros m Hm.
    apply list_elem_of_lookup_1 in Hm as [i Hi].
    apply lookup_zip_with_Some in Hi as (p & t' & -> & Hp & Ht).
    apply list_lookup_fmap_Some in Hp as (e & -> & _).
    apply lookup_replicate in Ht as [-> _].
    rewrite length_zip_with, length_map.
    apply Forall2_length in Hshape. lia.
Qed.

End Scores.

Lemma frozen_loss_is_total_of_scores_witness :
  let s := start (small_net None true) in
  exists scores s',
    @eval_score example_sampler example_permutations small_batch small_target s
    = (Ok (T3 scores, empty_meta), s')
    /\ @loss example_sampler example_permutations small_batch small_target s
       = (Ok (vsum (map (fun m => vsum (map vsum m)) scores), empty_meta), s')
    /\ length scores = 2
    /\ Forall (fun m : list (list Qc) => length m = 2) scores.
Proof.
  intros s.
  apply (@frozen_loss_is_total_of_scores example_sampler example_permutations
           [[qz 1; qz 2]; [qz 0; qz 1]] [[qz 1]; [qz 0]] s).
  - reflexivity.
  - repeat constructor.
  - vm_compute. reflexivity.
  - vm_compute. reflexivity.
  - repeat constructor.
Defined.

(** *** What the forward pass and the objectives never write *)

Lemma keeps_ret {A} (a : A) : keeps_parameters (mret a).
Proof. by intros s. Qed.

Lemma keeps_lift {A} (o : Outcome A) : keeps_parameters (lift o).
Proof. by intros s. Qed.

Lemma keeps_raise {A} (e : PyError) : keeps_parameters (@raise A e).
Proof. by intros s. Qed.

Lemma keeps_get_self : keeps_parameters get_self.
Proof. by intros s. Qed.

Lemma keeps_assert (c : bool) : keeps_parameters (py_assert c).
Proof. intros s. by destruct c. Qed.

Lemma keeps_bind {A B} (c : M A) (f : A -> M B) :
  keeps_parameters c -> (forall a, keeps_parameters (f a)) -> keeps_parameters (c ≫= f).
Proof.
  intros Hc Hf s. unfold mbind, machine_bind.
  specialize (Hc s). destruct (c s) as [[a|e] s1]; cbn [snd] in Hc.
  - by rewrite (Hf a s1).
  - exact Hc.
Qed.

Lemma layer_parameters_settings (l : EnsembleLinearBayesian) :
  layer_parameters (Layer.settings l) = layer_parameters l.
Proof. reflexivity. Qed.

Lemma net_parameters_settings (self : BNN) :
  net_parameters (net_settings self) = net_parameters self.
Proof.
  unfold net_parameters, net_settings, with_layers. simpl. f_equal.
  rewrite map_map. reflexivity.
Qed.

Lemma net_parameters_toggled (self : BNN) :
  net_parameters (toggled self) = net_parameters self.
Proof.
  unfold toggled. destruct (elite_models self) as [elite|]; [|done].
  unfold net_parameters, with_layers. simpl. f_equal.
  rewrite map_map. reflexivity.
Qed.

Section Untouched.
Context `{VariationalSampler} `{PermutationSource}.

Lemma keeps_toggle only_elite :
  keeps_parameters (_maybe_toggle_layers_use_only_elite only_elite).
Proof.
  intros s. rewrite maybe_toggle_run. cbn [snd].
  destruct (toggles only_elite (net s)); [|done]. apply net_parameters_toggled.
Qed.

Lemma keeps_layer_stack x : keeps_parameters (layer_stack x).
Proof.
  intros s. destruct (layer_stack x s) as [r s'] eqn:Hrun. cbn [snd].
  rewrite <- (net_parameters_settings (net s')), <- (net_parameters_settings (net s)).
  by rewrite (layer_stack_settings _ _ _ _ Hrun).
Qed.

Lemma keeps_default_forward x only_elite :
  keeps_parameters (_default_forward x only_elite).
Proof.
  intros s. rewrite default_forward_unfold.
  pose proof (keeps_toggle only_elite s) as H1.
  destruct (_maybe_toggle_layers_use_only_elite only_elite s) as [[[]|e] s1];
    cbn [snd] in H1; [|exact H1].
  pose proof (keeps_layer_stack x s1) as H2.
  destruct (layer_stack x s1) as [[o|e] s2]; cbn [snd] in H2;
    [|cbn [snd]; by rewrite H2].
  pose proof (keeps_toggle only_elite s2) as H3.
  destruct (_maybe_toggle_layers_use_only_elite only_elite s2) as [[[]|e] s3];
    cbn [snd] in *; by rewrite H3, H2.
Qed.

Lemma keeps_randperm n : keeps_parameters (torch_randperm n).
Proof. by intros s. Qed.

Lemma keeps_forward_from_indices x indices :
  keeps_parameters (_forward_from_indices x indices).
Proof.
  unfold _forward_from_indices.
  apply keeps_bind; [apply keeps_get_self|]. intros self.
  repeat (apply keeps_bind; [first [apply keeps_lift | apply keeps_default_forward]|]; intros ?).
  apply keeps_ret.
Qed.

Lemma keeps_forward x propagation_indices use_propagation :
  keeps_parameters (forward x propagation_indices use_propagation).
Proof.
  unfold forward. destruct use_propagation.
  - unfold _forward_ensemble.
    apply keeps_bind; [apply keeps_get_self|]. intros self.
    destruct (propagation_method self) as [method|].
    + destruct x as [m|t]; [|apply keeps_raise].
      apply keeps_bind; [apply keeps_lift|]. intros remainder.
      destruct (negb (remainder =? 0)); [apply keeps_raise|].
      destruct (String.eqb method "random_model").
      { apply keeps_bind; [apply keeps_randperm|]. intros idx.
        apply keeps_forward_from_indices. }
      destruct (String.eqb method "fixed_model").
      { destruct propagation_indices; [apply keeps_forward_from_indices|apply keeps_raise]. }
      destruct (String.eqb method "expectation"); [|apply keeps_raise].
      apply keeps_bind; [apply keeps_default_forward|]. intros pred.
      apply keeps_bind; [apply keeps_lift|]. intros mean. apply keeps_ret.
    + apply keeps_bind; [apply keeps_default_forward|]. intros mean.
      destruct (num_members self =? 1); [apply keeps_lift|apply keeps_ret].
  - apply keeps_bind; [apply keeps_default_forward|]. intros output. apply keeps_ret.
Qed.

Lemma keeps_mse_loss model_in target : keeps_parameters (_mse_loss model_in target).
Proof.
  unfold _mse_loss.
  apply keeps_bind; [apply keeps_assert|]. intros _.
  apply keeps_bind; [apply keeps_forward|]. intros pred.
  apply keeps_bind; [apply keeps_lift|]. intros errors. apply keeps_lift.
Qed.

Lemma keeps_elbo_loop n inputs labels w : forall acc,
  keeps_parameters (elbo_loop n inputs labels w acc).
Proof.
  induction n as [|n IH]; intros acc; [apply keeps_ret|].
  cbn [elbo_loop]. apply keeps_bind; [|intros a; apply IH].
  unfold elbo_body.
  apply keeps_bind; [apply keeps_mse_loss|]. intros mse.
  apply keeps_bind; [|intros kl; apply keeps_ret].
  unfold nn_kl_divergence.
  apply keeps_bind; [apply keeps_get_self|]. intros self. apply keeps_ret.
Qed.

Lemma keeps_sample_elbo inputs labels n w :
  keeps_parameters (sample_elbo inputs labels n w).
Proof.
  unfold sample_elbo. apply keeps_bind; [apply keeps_elbo_loop|]. intros value.
  destruct (n =? 0); [apply keeps_raise|apply keeps_ret].
Qed.

Lemma net_parameters_fields (a b : BNN) :
  net_parameters a = net_parameters b ->
  map units (linear_layers a) = map units (linear_layers b)
  /\ freeze_flags a = freeze_flags b
  /\ freeze a = freeze b
  /\ elite_models a = elite_models b
  /\ num_members a = num_members b
  /\ propagation_method a = propagation_method b.
Proof.
  intros Heq.
  assert (Hunits : forall n, map units (linear_layers (net_parameters n))
                             = map units (linear_layers n)).
  { intros n. unfold linear_layers, net_parameters. simpl.
    rewrite !map_app, !map_map. reflexivity. }
  assert (Hflags : forall n, freeze_flags (net_parameters n) = freeze_flags n).
  { intros n. unfold freeze_flags, linear_layers, net_parameters. simpl.
    rewrite !map_app, !map_map. reflexivity. }
  rewrite <- (Hunits a), <- (Hunits b), <- (Hflags a), <- (Hflags b), Heq.
  repeat split; by inversion Heq.
Qed.

(** X15: [forward] never writes a parameter.  Whatever the input, the
    indices, the mode and the propagation method, and whether the call
    returns or raises, the posteriors of the units of every layer, the
    freeze flags of the layers and of the ensemble, the elite set, the
    member count and the propagation method are afterwards what they were on
    entry. *)
Theorem forward_never_writes_parameters (x : Tensor)
    (propagation_indices : option (list nat)) (use_propagation : bool) (s : Machine) :
  let s' := (forward x propagation_indices use_propagation s).2 in
  net_parameters (net s') = net_parameters (net s)
  /\ map units (linear_layers (net s')) = map units (linear_layers (net s))
  /\ freeze_flags (net s') = freeze_flags (net s)
  /\ freeze (net s') = freeze (net s)
  /\ elite_models (net s') = elite_models (net s)
  /\ num_members (net s') = num_members (net s)
  /\ propagation_method (net s') = propagation_method (net s).
Proof.
  intros s'. pose proof (keeps_forward x propagation_indices use_propagation s) as Hkeep.
  split; [exact Hkeep|]. by apply net_parameters_fields.
Qed.

(** X16: the objectives never write a parameter either.  [_mse_loss],
    [eval_score] and [sample_elbo] leave the posteriors, the freeze flags,
    the elite set and the member count as they were, whether they return or
    raise; [loss] writes what its [freeze_model] call writes when the
    ensemble is flagged frozen, and nothing otherwise. *)
Theorem objectives_never_write_parameters (model_in target : Tensor) (sample_nbr : nat)
    (w : Qc) (s : Machine) :
  net_parameters (net (_mse_loss model_in target s).2) = net_parameters (net s)
  /\ net_parameters (net (eval_score model_in target s).2) = net_parameters (net s)
  /\ net_parameters (net (sample_elbo model_in target sample_nbr w s).2)
     = net_parameters (net s)
  /\ net_parameters (net (loss model_in target s).2)
     = net_parameters (if freeze (net s) then net (freeze_model s).2 else net s)
  /\ map units (linear_layers (net (loss model_in target s).2))
     = map units (linear_layers (net s)).
Proof.
  assert (Hloss : net_parameters (net (loss model_in target s).2)
                  = net_parameters (if freeze (net s) then net (freeze_model s).2 else net s)).
  { unfold loss. rewrite (bind_ok get_self _ s s (net s) eq_refl).
    destruct (freeze (net s)).
    - rewrite (bind_ok _ _ _ _ _ (freeze_model_run s)). rewrite freeze_model_run.
      cbn [snd net].
      set (s0 := {| net := freeze_layers true (with_freeze true (net s));
                    rng := rng s; trace := trace s |}).
      change (freeze_layers true (with_freeze true (net s))) with (net s0).
      refine (keeps_bind (_mse_loss model_in target) _ (keeps_mse_loss _ _) _ s0).
      intros value. apply keeps_ret.
    - refine (keeps_bind (sample_elbo model_in target 100 1%Qc) _
                (keeps_sample_elbo _ _ _ _) _ s).
      intros value. apply keeps_ret. }
  split; [apply keeps_mse_loss|]. split.
  { unfold eval_score.
    refine (keeps_bind _ _ (keeps_assert _) _ s). intros _.
    apply keeps_bind; [apply keeps_forward|]. intros pred.
    apply keeps_bind; [apply keeps_get_self|]. intros self.
    apply keeps_bind; [apply keeps_lift|]. intros errors. apply keeps_ret. }
  split; [apply keeps_sample_elbo|]. split; [exact Hloss|].
  apply net_parameters_fields in Hloss as [Hunits _]. rewrite Hunits.
  destruct (freeze (net s)); [|done].
  rewrite freeze_model_run. cbn [snd net].
  rewrite linear_layers_frozen, map_map. reflexivity.
Qed.

End Untouched.

(** *** The elite set and the batch size *)

Section EliteBatch.
Context `{VariationalSampler} `{PermutationSource}.

Lemma set_elite_model_len (elite : list nat) (s : Machine) :
  elite_models (net s) = None ->
  exists s',
    set_elite elite s = (Ok tt, s')
    /\ model_len (net s') = length elite
    /\ rng s' = rng s /\ trace s' = trace s.
Proof.
  intros Hnone. unfold set_elite.
  rewrite (bind_ok get_self _ s s (net s) eq_refl).
  destruct (length elite =? num_members (net s)) eqn:Hlen.
  - exists s. split; [done|]. apply Nat.eqb_eq in Hlen.
    unfold model_len, len. by rewrite Hnone.
  - eexists. split; [reflexivity|]. done.
Qed.

(** X17: on an ensemble without an elite set, [set_elite] makes the length
    of the given list the unit of the batch size: the indices sampled next
    are a permutation of [0, batch_size) when that length divides
    [batch_size], and the [ValueError] of the batch-size check names that
    length otherwise.  This holds also for a list as long as the ensemble,
    which [set_elite] does not record. *)
Theorem set_elite_sets_the_batch_unit (elite : list nat) (batch_size : nat) (s : Machine) :
  elite_models (net s) = None ->
  length elite <> 0 ->
  let run := (set_elite elite;; sample_propagation_indices batch_size) s in
  (Nat.divide (length elite) batch_size ->
     exists indices, run.1 = Ok indices /\ indices ≡ₚ seq 0 batch_size)
  /\ (~ Nat.divide (length elite) batch_size ->
        run = (Raise (ValueError (BatchNotMultiple batch_size (length elite))),
               (set_elite elite s).2)).
Proof.
  intros Hnone Hpos run.
  destruct (set_elite_model_len elite s Hnone) as (s1 & Hset & Hlen & _).
  assert (Hrun : run = sample_propagation_indices batch_size s1).
  { subst run. unfold mbind, machine_bind. by rewrite Hset. }
  rewrite Hrun, Hset. clearbody run. clear Hrun. cbn [snd].
  split.
  - intros Hdiv. rewrite sample_propagation_indices_run by (by rewrite Hlen).
    eexists. split; [reflexivity|apply randperm_perm].
  - intros Hndiv. unfold sample_propagation_indices.
    rewrite (bind_ok get_self _ s1 s1 (net s1) eq_refl), Hlen.
    unfold py_mod. apply Nat.eqb_neq in Hpos as Hzero. rewrite Hzero.
    rewrite (bind_ok (lift (Ok _)) _ s1 s1 _ eq_refl).
    destruct (batch_size mod length elite =? 0) eqn:Hmod; [|reflexivity].
    apply Nat.eqb_eq in Hmod. destruct Hndiv. by apply Nat.Lcm0.mod_divide.
Qed.

End EliteBatch.

Lemma set_elite_sets_the_batch_unit_witness :
  let s := start smoke_net in
  (exists indices,
     ((set_elite [0; 2];; @sample_propagation_indices example_permutations 4) s).1 = Ok indices
     /\ indices ≡ₚ seq 0 4)
  /\ (set_elite [0; 2];; @sample_propagation_indices example_permutations 3) s
     = (Raise (ValueError (BatchNotMultiple 3 2)), (set_elite [0; 2] s).2).
Proof.
  intros s. split.
  - apply (@set_elite_sets_the_batch_unit example_permutations [0; 2] 4 s);
      [reflexivity|simpl; lia|]. exists 2. reflexivity.
  - apply (@set_elite_sets_the_batch_unit example_permutations [0; 2] 3 s);
      [reflexivity|simpl; lia|].
    intros [k Hk]. change (3 = k * 2) in Hk. lia.
Defined.
